(** * caddy-l4, package l4remoteiplist: the file-backed IP list

    A shallow embedding of [modules/l4remoteiplist/iplist.go] and of the
    parts of the Go libraries it calls ([net/netip], [bufio], [os],
    [fsnotify]), followed by the properties of the list that the
    specification states.

    Conventions.
    - A Go [string] is a Rocq [string]; a [uint64] or a bit mask is a [Z].
    - A method with a pointer receiver [b *IPList] that mutates [b] becomes a
      function that takes the list and returns the updated list next to the
      method's own result.
    - An [error] result is an [option error]: [None] is Go's [nil].
    - [reloadNeededMutex] has no field here: the functions below are the
      sequential behaviour of one call, in which [Lock]/[Unlock] do nothing
      observable. *)

From Stdlib Require Import ZArith List String Ascii Bool Lia.
Import ListNotations.

Local Open Scope Z_scope.

(** ** Errors *)

(** Go [error] values the package can see or build.  [Errorf format v] is
    [fmt.Errorf(format, v)]; [ErrorfW format v w] is the same call with a
    trailing [%w] verb wrapping [w]. *)
Inductive error : Type :=
| Errno (name : string)
| ErrTooLong
| Errorf (format : string) (v : string)
| ErrorfW (format : string) (v : string) (wrapped : error).

(** ** net/netip *)

Module Netip.

(** The handle [Addr.z]: [z0] for the zero [Addr], [z4] for IPv4, and for
    IPv6 the interned detail holding the zone ([z6noz] is the empty
    zone).  Interned handles are equal exactly when their details are, so
    the handle is identified with its zone. *)
Inductive zhandle : Type :=
| z0
| z4
| z6 (zoneV6 : string).

Definition z6noz : zhandle := z6 "".

(** [type Addr struct { addr uint128; z unique.Handle[addrDetail] }] *)
Record Addr : Type := mkAddr { hi : Z; lo : Z; z : zhandle }.

Definition BitLen (ip : Addr) : Z :=
  match z ip with
  | z0 => 0
  | z4 => 32
  | z6 _ => 128
  end.

Definition Is6 (ip : Addr) : bool :=
  match z ip with
  | z0 | z4 => false
  | z6 _ => true
  end.

Definition Zone (ip : Addr) : string :=
  match z ip with
  | z0 | z4 => ""%string
  | z6 zone => zone
  end.

(** [func (ip Addr) Compare(ip2 Addr) int] *)
Definition Compare (ip ip2 : Addr) : Z :=
  let f1 := BitLen ip in
  let f2 := BitLen ip2 in
  if f1 <? f2 then -1
  else if f1 >? f2 then 1
  else if hi ip <? hi ip2 then -1
  else if hi ip >? hi ip2 then 1
  else if lo ip <? lo ip2 then -1
  else if lo ip >? lo ip2 then 1
  else if Is6 ip then
    if String.ltb (Zone ip) (Zone ip2) then -1
    else if String.ltb (Zone ip2) (Zone ip) then 1
    else 0
  else 0.

(** [AddrFrom4]: the four bytes below the [0xffff] marker of the low word. *)
Definition AddrFrom4 (a b c d : Z) : Addr :=
  {| hi := 0;
     lo := Z.lor 0xffff00000000
             (Z.lor (Z.shiftl a 24)
                (Z.lor (Z.shiftl b 16) (Z.lor (Z.shiftl c 8) d)));
     z := z4 |}.

End Netip.

(** ** bufio *)

Module Bufio.

(** [MaxScanTokenSize]: the largest buffer a [Scanner] grows to. *)
Definition MaxScanTokenSize : Z := 64 * 1024.

Definition LF : ascii := "010"%char.
Definition CR : ascii := "013"%char.

(** The [io.Reader] under the scanner: the bytes it delivers, and how the
    stream ends ([None] for [io.EOF], [Some e] for a read error). *)
Record Reader : Type := mkReader { data : string; read_err : option error }.

(** [dropCR] on a token held newest byte first, returned in reading
    order. *)
Definition token (cur : list ascii) : string :=
  string_of_list_ascii
    (rev match cur with
         | c :: cur' => if (c =? CR)%char then cur' else cur
         | [] => []
         end).

(** A [Scanner] with the default split function [ScanLines] and the
    default buffer, run to the end: the tokens that the successive calls
    of [Scan] make available through [Text], and the final [Err].

    [cur] holds the bytes buffered since the last newline, [n] their
    number.  The buffer never grows beyond [MaxScanTokenSize], so a line
    that fills it before its newline arrives stops the scan with
    [ErrTooLong].  When the reader ends (at EOF or with an error) the
    bytes left over, if any, are the last token, and the reader's error
    is what [Err] reports. *)
Fixpoint scan (input : string) (cur : list ascii) (n : Z)
         (end_err : option error) : list string * option error :=
  if MaxScanTokenSize <=? n then ([], Some ErrTooLong)
  else
    match input with
    | EmptyString =>
        (match cur with [] => [] | _ :: _ => [token cur] end, end_err)
    | String c rest =>
        if (c =? LF)%char then
          let '(toks, e) := scan rest [] 0 end_err in
          (token cur :: toks, e)
        else scan rest (c :: cur) (n + 1) end_err
    end.

Definition ScanAll (r : Reader) : list string * option error :=
  scan (data r) [] 0 (read_err r).

(** The text of a file as lines, independently of the scanner: the
    pieces between newlines, a last piece without a newline counting
    only when it is not empty. *)
Fixpoint raw_lines (s : string) : list string :=
  match s with
  | EmptyString => []
  | String c rest =>
      if (c =? LF)%char then EmptyString :: raw_lines rest
      else match raw_lines rest with
           | [] => [String c EmptyString]
           | l :: ls => String c l :: ls
           end
  end.

(** A line without its trailing carriage return. *)
Fixpoint dropCR (s : string) : string :=
  match s with
  | EmptyString => EmptyString
  | String c EmptyString => if (c =? CR)%char then EmptyString else s
  | String c rest => String c (dropCR rest)
  end.

Definition lines (s : string) : list string := map dropCR (raw_lines s).

(** [unlines ls]: every line of [ls] followed by a newline. *)
Fixpoint unlines (ls : list string) : string :=
  match ls with
  | [] => EmptyString
  | l :: ls' => (l ++ String LF (unlines ls'))%string
  end.

Definition short_line (l : string) : Prop :=
  Z.of_nat (String.length l) < MaxScanTokenSize.

End Bufio.

(** ** os *)

Module Os.

Inductive result (A : Type) : Type :=
| Ok (a : A)
| Err (e : error).
Arguments Ok {A} a.
Arguments Err {A} e.

(** The part of [fs.FileInfo] the package looks at. *)
Record FileInfo : Type := mkFileInfo { IsDir : bool }.

(** The file system as the package observes it at one moment: what
    [os.Lstat] and [os.Open] answer for each path.  The reader of an
    opened file is the file passed to [bufio.NewScanner]. *)
Record FS : Type := mkFS {
  Lstat : string -> result FileInfo;
  Open : string -> result Bufio.Reader
}.

End Os.

(** ** fsnotify *)

Module Fsnotify.

(** [type Op uint32], a bit mask. *)
Definition Create : Z := Z.shiftl 1 0.
Definition Write : Z := Z.shiftl 1 1.
Definition Remove : Z := Z.shiftl 1 2.
Definition Rename : Z := Z.shiftl 1 3.
Definition Chmod : Z := Z.shiftl 1 4.

Record Event : Type := mkEvent { Name : string; Op : Z }.

(** [func (e Event) Has(op Op) bool { return e.Op&op == op }] *)
Definition Has (e : Event) (op : Z) : bool := Z.land (Op e) op =? op.

End Fsnotify.

(** ** Package l4remoteiplist *)

Import Netip Os.

(** What the [*zap.Logger] has been asked to write: the level, the
    message, and the error passed as [zap.Error(err)] ([None] for a nil
    error or no field). *)
Inductive Level : Type := DebugLevel | ErrorLevel.

Record LogEntry : Type := mkLogEntry {
  level : Level;
  msg : string;
  zap_Error : option error
}.

(** [type IPList struct].  [logger] is the log written so far; [ctx] is
    only ever used for its [Done] channel, which is an input of [monitor]
    below. *)
Record IPList : Type := mkIPList {
  ipFile : string;
  ipAddresses : list Addr;
  logger : list LogEntry;
  reloadNeeded : bool
}.

Definition set_ipAddresses (b : IPList) (l : list Addr) : IPList :=
  {| ipFile := ipFile b; ipAddresses := l;
     logger := logger b; reloadNeeded := reloadNeeded b |}.

Definition set_reloadNeeded (b : IPList) (f : bool) : IPList :=
  {| ipFile := ipFile b; ipAddresses := ipAddresses b;
     logger := logger b; reloadNeeded := f |}.

Definition log (b : IPList) (e : LogEntry) : IPList :=
  {| ipFile := ipFile b; ipAddresses := ipAddresses b;
     logger := logger b ++ [e]; reloadNeeded := reloadNeeded b |}.

Definition logger_Debug (b : IPList) (m : string) : IPList :=
  log b (mkLogEntry DebugLevel m None).

Definition logger_Error (b : IPList) (m : string) (err : option error) : IPList :=
  log b (mkLogEntry ErrorLevel m err).

(** What one pass through the [select] of [monitor] receives. *)
Inductive SelectCase : Type :=
| CtxDone
| WatcherError (err : option error) (ok : bool)
| WatcherEvent (e : Fsnotify.Event) (ok : bool).

(** The watcher task after some steps: still in its loop, or returned. *)
Inductive TaskState : Type := Watching | Stopped.

Section IPListOps.

(** [filepath.Dir] and [netip.ParseAddr], library functions of which
    only the results matter here. *)
Variable filepath_Dir : string -> string.
Variable ParseAddr : string -> option Addr.

Definition ipFileDirectoryExists (fs : FS) (b : IPList) : bool :=
  let dirpath := filepath_Dir (ipFile b) in
  match Lstat fs dirpath with
  | Err _ => false
  | Ok st => if negb (IsDir st) then false else true
  end.

Definition ipFileExists (fs : FS) (b : IPList) : bool :=
  match Lstat fs (ipFile b) with
  | Err _ => false
  | Ok st => if IsDir st then false else true
  end.

Definition NewIPList (fs : FS) (ipFile : string) (logger : list LogEntry)
  : result IPList :=
  let ipList := {| ipFile := ipFile; ipAddresses := [];
                   logger := logger; reloadNeeded := true |} in
  if negb (ipFileDirectoryExists fs ipList) then
    Err (Errorf
           "could not find the directory containing the IP file to monitor: %v"
           ipFile)
  else Ok ipList.

(** The body of the [for scanner.Scan()] loop, for one line. *)
Definition appendParsed (ipAddresses : list Addr) (line : string)
  : list Addr :=
  match ParseAddr line with
  | Some ip => ipAddresses ++ [ip]
  | None => ipAddresses
  end.

Definition loadIPAddresses (fs : FS) (b : IPList) : IPList * option error :=
  if negb (ipFileExists fs b) then
    (set_ipAddresses
       (logger_Debug b "ip file not found, nothing to monitor") [],
     None)
  else
    match Open fs (ipFile b) with
    | Err err =>
        (b, Some (ErrorfW "error opening the IP list file %v: %w"
                    (ipFile b) err))
    | Ok file =>
        let '(scanned, err) := Bufio.ScanAll file in
        let ipAddresses := fold_left appendParsed scanned [] in
        match err with
        | Some err =>
            (b, Some (ErrorfW "error reading the IPs from %v: %w"
                        (ipFile b) err))
        | None => (set_ipAddresses b ipAddresses, None)
        end
    end.

(** The [for _, listIP := range b.ipAddresses] loop of [IsMatched]. *)
Fixpoint rangeCompare (l : list Addr) (ip : Addr) : bool :=
  match l with
  | [] => false
  | listIP :: rest =>
      if Compare listIP ip =? 0 then true else rangeCompare rest ip
  end.

(** The locked part of [IsMatched]. *)
Definition reloadIfNeeded (fs : FS) (b : IPList) : IPList :=
  if reloadNeeded b then
    match loadIPAddresses fs b with
    | (b1, Some err) =>
        logger_Error b1 "could not load IP addresses" (Some err)
    | (b1, None) =>
        logger_Debug (set_reloadNeeded b1 false) "reloaded IP addresses"
    end
  else b.

Definition IsMatched (fs : FS) (b : IPList) (ip : Addr) : IPList * bool :=
  let b1 := reloadIfNeeded fs b in
  (b1, rangeCompare (ipAddresses b1) ip).

(** One pass through the [for { select { ... } }] of [monitor]. *)
Definition monitor_step (b : IPList) (c : SelectCase)
  : IPList * TaskState :=
  match c with
  | CtxDone => (logger_Debug b "caddy closed the context", Stopped)
  | WatcherError err ok =>
      let b1 := logger_Error b "error from file watcher" err in
      if negb ok then
        (logger_Error b1 "file watcher was closed" None, Stopped)
      else (b1, Watching)
  | WatcherEvent e ok =>
      if negb ok then
        (logger_Error b "file watcher was closed" None, Stopped)
      else if (ipFile b =? Fsnotify.Name e)%string
              && (Fsnotify.Has e Fsnotify.Create
                  || Fsnotify.Has e Fsnotify.Write)
      then (set_reloadNeeded b true, Watching)
      else (b, Watching)
  end.

(** The loop over what the task receives; when nothing is left to
    receive the task is blocked in [select], still watching. *)
Fixpoint monitor_loop (b : IPList) (recv : list SelectCase)
  : IPList * TaskState :=
  match recv with
  | [] => (b, Watching)
  | c :: rest =>
      match monitor_step b c with
      | (b1, Watching) => monitor_loop b1 rest
      | (b1, Stopped) => (b1, Stopped)
      end
  end.

(** [monitor]: [newWatcher] is the error of [fsnotify.NewWatcher()],
    [add] the error of [w.Add(dir)]. *)
Definition monitor (fs : FS) (b : IPList) (newWatcher : option error)
           (add : string -> option error) (recv : list SelectCase)
  : IPList * TaskState :=
  match newWatcher with
  | Some err =>
      (logger_Error b "error creating a new filesystem watcher" (Some err),
       Stopped)
  | None =>
      if negb (ipFileDirectoryExists fs b) then
        (logger_Error b
           "directory containing the IP file to monitor does not exist" None,
         Stopped)
      else
        match add (filepath_Dir (ipFile b)) with
        | Some err =>
            (logger_Error b "error watching the file" (Some err), Stopped)
        | None => monitor_loop b recv
        end
  end.

(** *** The list in use

    What happens to a list over time, one step after the other: queries,
    passes of the watcher's loop, and changes of the file system in
    between. *)
Inductive Action : Type :=
| Query (ip : Addr)
| Receive (c : SelectCase)
| FsChange (fs : FS).

Record System : Type := mkSystem {
  sys_fs : FS;
  sys_list : IPList;
  sys_task : TaskState
}.

Definition act (s : System) (a : Action) : System * list bool :=
  match a with
  | Query ip =>
      let '(b1, r) := IsMatched (sys_fs s) (sys_list s) ip in
      (mkSystem (sys_fs s) b1 (sys_task s), [r])
  | Receive c =>
      match sys_task s with
      | Stopped => (s, [])
      | Watching =>
          let '(b1, t) := monitor_step (sys_list s) c in
          (mkSystem (sys_fs s) b1 t, [])
      end
  | FsChange fs => (mkSystem fs (sys_list s) (sys_task s), [])
  end.

(** The answers of the queries among [acts], in order. *)
Fixpoint run (s : System) (acts : list Action) : System * list bool :=
  match acts with
  | [] => (s, [])
  | a :: rest =>
      let '(s1, r1) := act s a in
      let '(s2, r2) := run s1 rest in
      (s2, r1 ++ r2)
  end.

(** The number of times the list was reloaded, and the number of times a
    reload failed, read off the log. *)
Definition is_reloaded (e : LogEntry) : bool :=
  (msg e =? "reloaded IP addresses")%string.

Definition is_load_failure (e : LogEntry) : bool :=
  (msg e =? "could not load IP addresses")%string.

Definition reloads (b : IPList) : nat :=
  List.length (filter is_reloaded (logger b)).

Definition load_failures (b : IPList) : nat :=
  List.length (filter is_load_failure (logger b)).

End IPListOps.

(** ** Vocabulary of the specification *)

(** The directory [d] exists: [Lstat] finds it and it is a directory. *)
Definition dir_exists (fs : FS) (d : string) : Prop :=
  exists st, Lstat fs d = Ok st /\ IsDir st = true.

(** Nothing exists at [p]: [Lstat] reports an error. *)
Definition file_absent (fs : FS) (p : string) : Prop :=
  exists e, Lstat fs p = Err e.

(** [p] names a directory. *)
Definition is_directory (fs : FS) (p : string) : Prop :=
  exists st, Lstat fs p = Ok st /\ IsDir st = true.

(** [p] names something that is not a directory. *)
Definition file_exists (fs : FS) (p : string) : Prop :=
  exists st, Lstat fs p = Ok st /\ IsDir st = false.

(** The successfully parsed addresses of a sequence of lines, in line
    order. *)
Fixpoint parsed_addresses (ParseAddr : string -> option Addr)
         (ls : list string) : list Addr :=
  match ls with
  | [] => []
  | l :: ls' =>
      match ParseAddr l with
      | Some ip => ip :: parsed_addresses ParseAddr ls'
      | None => parsed_addresses ParseAddr ls'
      end
  end.

(** Loading the file [f] found at the path of [b] leaves exactly the
    addresses parsed from its lines, and no error. *)
Definition loads_parsed_lines (ParseAddr : string -> option Addr)
           (fs : FS) (b : IPList) (f : Bufio.Reader) : Prop :=
  loadIPAddresses ParseAddr fs b
  = (set_ipAddresses b
       (parsed_addresses ParseAddr (Bufio.lines (Bufio.data f))), None).

(** An event that is a removal and nothing else. *)
Definition is_delete (e : Fsnotify.Event) : Prop :=
  Fsnotify.Op e = Fsnotify.Remove.

(** What the watcher receives is not an event for the path [p], or is a
    plain removal. *)
Definition other_path_or_delete (p : string) (c : SelectCase) : Prop :=
  match c with
  | WatcherEvent e _ => Fsnotify.Name e <> p \/ is_delete e
  | _ => True
  end.

(** A create or write event for exactly the path [p], received from an
    open channel. *)
Definition create_or_write_at (p : string) (c : SelectCase) : Prop :=
  exists e, c = WatcherEvent e true /\ Fsnotify.Name e = p
            /\ (Fsnotify.Has e Fsnotify.Create = true
                \/ Fsnotify.Has e Fsnotify.Write = true).

(** There is no file to load at [p]: nothing is there, or a directory. *)
Definition no_file (fs : FS) (p : string) : Prop :=
  file_absent fs p \/ is_directory fs p.

(** Every change of the file system among the actions leads to a file
    system satisfying [P]. *)
Definition fs_stays (P : FS -> Prop) (a : Action) : Prop :=
  match a with
  | FsChange fs => P fs
  | _ => True
  end.

(** The file [f] is what is found at [p], and it can be read to its end:
    it opens, reading it ends without error, and each of its lines fits
    the scanner's buffer. *)
Definition readable (fs : FS) (p : string) (f : Bufio.Reader) : Prop :=
  file_exists fs p
  /\ Open fs p = Ok f
  /\ Bufio.read_err f = None
  /\ Forall Bufio.short_line (Bufio.raw_lines (Bufio.data f)).

(** Some line of [text] is the address [ip]. *)
Definition listed (ParseAddr : string -> option Addr) (text : string)
           (ip : Addr) : Prop :=
  exists l, In l (Bufio.lines text) /\ ParseAddr l = Some ip.

(** What makes the watcher return: the context is done, or one of the
    watcher's channels is closed. *)
Definition stops (c : SelectCase) : bool :=
  match c with
  | CtxDone => true
  | WatcherError _ ok => negb ok
  | WatcherEvent _ ok => negb ok
  end.

(** An action after which a list over [p] is no more due for a reload than
    before: anything but the watcher receiving a create or write event
    for [p]. *)
Definition quiet (p : string) (a : Action) : Prop :=
  match a with
  | Receive c => ~ create_or_write_at p c
  | _ => True
  end.

(** The addresses asked for among the actions, in order. *)
Fixpoint queried (acts : list Action) : list Addr :=
  match acts with
  | [] => []
  | Query ip :: rest => ip :: queried rest
  | _ :: rest => queried rest
  end.

(** A line of text holding neither a newline nor a carriage return. *)
Definition plain (l : list ascii) : Prop :=
  Forall (fun c => (c =? Bufio.LF)%char = false
                   /\ (c =? Bufio.CR)%char = false) l.

(** [ls] written out with a newline after each line, and with a carriage
    return and a newline after each line. *)
Definition lf_text (ls : list (list ascii)) : string :=
  Bufio.unlines (map string_of_list_ascii ls).

Definition crlf_text (ls : list (list ascii)) : string :=
  Bufio.unlines
    (map (fun l => string_of_list_ascii (l ++ [Bufio.CR])) ls).

(** ** Concrete files and file systems

    A small file system given by a table of paths, and the library
    functions restricted to the texts that occur in it, on which they
    answer as the Go functions do. *)

Module Sample.

Local Open Scope string_scope.

Definition NL : string := String Bufio.LF EmptyString.

Inductive Node : Type :=
| Directory
| Regular (content : string)
| Unopenable (e : error)
| Unreadable (content : string) (e : error).

Fixpoint find (p : string) (t : list (string * Node)) : option Node :=
  match t with
  | [] => None
  | (q, n) :: t' => if (p =? q)%string then Some n else find p t'
  end.

Definition ENOENT : error := Errno "no such file or directory".
Definition EISDIR : error := Errno "is a directory".
Definition EIO : error := Errno "input/output error".

Definition fs_of (t : list (string * Node)) : FS :=
  {| Lstat := fun p =>
       match find p t with
       | None => Err ENOENT
       | Some Directory => Ok (mkFileInfo true)
       | Some _ => Ok (mkFileInfo false)
       end;
     Open := fun p =>
       match find p t with
       | None => Err ENOENT
       | Some Directory => Ok (Bufio.mkReader "" (Some EISDIR))
       | Some (Regular c) => Ok (Bufio.mkReader c None)
       | Some (Unopenable e) => Err e
       | Some (Unreadable c e) => Ok (Bufio.mkReader c (Some e))
       end |}.

Definition banfile : string := "/etc/caddy/banned-ips".

(** [filepath.Dir] on the paths used here. *)
Definition Dir (p : string) : string :=
  if (p =? banfile)%string then "/etc/caddy"
  else if (p =? "/nonexistent/banned-ips")%string then "/nonexistent"
  else ".".

Definition ip1 : Addr := AddrFrom4 10 0 0 1.
Definition ip2 : Addr := AddrFrom4 10 0 0 2.
Definition ip3 : Addr := AddrFrom4 10 0 0 3.
Definition loopback6 : Addr := {| hi := 0; lo := 1; z := z6noz |}.

(** [netip.ParseAddr] on the lines used here; every other text used
    here is not an address. *)
Definition Parse (s : string) : option Addr :=
  if (s =? "10.0.0.1")%string then Some ip1
  else if (s =? "10.0.0.2")%string then Some ip2
  else if (s =? "10.0.0.3")%string then Some ip3
  else if (s =? "::1")%string then Some loopback6
  else None.

Definition two_ips : string := "10.0.0.1" ++ NL ++ "10.0.0.2" ++ NL.

Definition commented : string :=
  "# banned" ++ NL ++ "10.0.0.1" ++ NL ++ NL ++ "not an address" ++ NL
    ++ "::1" ++ String Bufio.CR NL ++ "10.0.0.2".

Fixpoint repeat_char (c : ascii) (n : nat) (tail : string) : string :=
  match n with
  | O => tail
  | S n' => String c (repeat_char c n' tail)
  end.

(** An address, then a comment line of 65536 bytes. *)
Definition long_comment : string :=
  "10.0.0.1" ++ NL ++ repeat_char "#" (Z.to_nat Bufio.MaxScanTokenSize) NL.

Definition dir_only : FS := fs_of [("/etc/caddy", Directory)].
Definition with_two_ips : FS :=
  fs_of [("/etc/caddy", Directory); (banfile, Regular two_ips)].
Definition with_commented : FS :=
  fs_of [("/etc/caddy", Directory); (banfile, Regular commented)].
Definition with_long_comment : FS :=
  fs_of [("/etc/caddy", Directory); (banfile, Regular long_comment)].
Definition with_unreadable : FS :=
  fs_of [("/etc/caddy", Directory); (banfile, Unreadable two_ips EIO)].
Definition empty_fs : FS := fs_of [].

(** A list as [NewIPList] leaves it, and one that has served
    [10.0.0.3] and is due for a reload. *)
Definition fresh : IPList :=
  {| ipFile := banfile; ipAddresses := []; logger := [];
     reloadNeeded := true |}.
Definition stale : IPList :=
  {| ipFile := banfile; ipAddresses := [ip3]; logger := [];
     reloadNeeded := true |}.
Definition settled : IPList :=
  {| ipFile := banfile; ipAddresses := [ip1; ip2]; logger := [];
     reloadNeeded := false |}.

(** [fresh] after a query that loaded [two_ips]. *)
Definition loaded_two_ips : IPList :=
  {| ipFile := banfile; ipAddresses := [ip1; ip2];
     logger := [mkLogEntry DebugLevel "reloaded IP addresses" None];
     reloadNeeded := false |}.

Definition read_failure : error :=
  ErrorfW "error reading the IPs from %v: %w" banfile EIO.
Definition too_long_failure : error :=
  ErrorfW "error reading the IPs from %v: %w" banfile ErrTooLong.

(** What a watcher may receive. *)
Definition written : SelectCase :=
  WatcherEvent (Fsnotify.mkEvent banfile Fsnotify.Write) true.
Definition created : SelectCase :=
  WatcherEvent (Fsnotify.mkEvent banfile Fsnotify.Create) true.
Definition deleted : SelectCase :=
  WatcherEvent (Fsnotify.mkEvent banfile Fsnotify.Remove) true.
Definition other_written : SelectCase :=
  WatcherEvent (Fsnotify.mkEvent "/etc/caddy/Caddyfile" Fsnotify.Write) true.

Definition no_error (d : string) : option error := None.

(** [settled] with its snapshot in another order and with a repetition. *)
Definition settled_shuffled : IPList :=
  {| ipFile := banfile; ipAddresses := [ip2; ip1; ip2]; logger := [];
     reloadNeeded := false |}.

(** Three lines, written out with either line ending, and a further
    line left without one. *)
Definition three_lines : list (list ascii) :=
  [list_ascii_of_string "10.0.0.1"; list_ascii_of_string "# note";
   list_ascii_of_string "10.0.0.2"].
Definition open_line : list ascii := list_ascii_of_string "10.0.0.3".

Definition with_lf : FS :=
  fs_of [("/etc/caddy", Directory); (banfile, Regular (lf_text three_lines))].
Definition with_crlf : FS :=
  fs_of [("/etc/caddy", Directory);
         (banfile, Regular (crlf_text three_lines))].
Definition with_open_line : FS :=
  fs_of [("/etc/caddy", Directory);
         (banfile,
          Regular (lf_text three_lines ++ string_of_list_ascii open_line))].

End Sample.

(** * Properties *)

(** ** Address comparison *)

Module NetipFacts.
Import Netip.

Lemma string_ltb_irrefl_eq (s t : string) :
  String.ltb s t = false -> String.ltb t s = false -> s = t.
Proof.
  unfold String.ltb. intros Hst Hts.
  apply String.compare_eq_iff.
  rewrite String.compare_antisym in Hts.
  destruct (String.compare s t); simpl in *; congruence.
Qed.

Lemma string_ltb_irrefl (s : string) : String.ltb s s = false.
Proof.
  unfold String.ltb.
  assert (H : String.compare s s = CompOpp (String.compare s s))
    by apply String.compare_antisym.
  destruct (String.compare s s); simpl in H; congruence.
Qed.

(** [Compare] returns 0 exactly on equal addresses. *)
Lemma Compare_eq_iff (ip ip2 : Addr) : Compare ip ip2 = 0 <-> ip = ip2.
Proof.
  split.
  - destruct ip as [h1 l1 za], ip2 as [h2 l2 zb].
    unfold Compare, BitLen, Is6, Zone; simpl.
    destruct za as [| |s1], zb as [| |s2]; simpl;
      repeat match goal with
             | |- context [?a <? ?b] => destruct (Z.ltb_spec a b); try discriminate
             | |- context [?a >? ?b] =>
                 rewrite (Z.gtb_ltb a b); destruct (Z.ltb_spec b a); try discriminate
             end;
      try (intros; discriminate);
      try (intros _; f_equal; lia).
    destruct (String.ltb s1 s2) eqn:E1; try discriminate.
    destruct (String.ltb s2 s1) eqn:E2; try discriminate.
    intros _. f_equal; try lia.
    f_equal. now apply string_ltb_irrefl_eq.
  - intros <-. unfold Compare.
    rewrite !Z.ltb_irrefl, !Z.gtb_ltb, !Z.ltb_irrefl.
    rewrite string_ltb_irrefl. now destruct (Is6 ip).
Qed.

End NetipFacts.

(** ** The line scanner *)

Module BufioFacts.
Import Bufio.

Local Abbreviation sola := string_of_list_ascii.

Definition notLF (c : ascii) : Prop := (c =? LF)%char = false.

Lemma scan_eq (input : string) (cur : list ascii) (n : Z) (e : option error) :
  scan input cur n e =
  if MaxScanTokenSize <=? n then ([], Some ErrTooLong)
  else
    match input with
    | EmptyString =>
        (match cur with [] => [] | _ :: _ => [token cur] end, e)
    | String c rest =>
        if (c =? LF)%char then
          let '(toks, e') := scan rest [] 0 e in (token cur :: toks, e')
        else scan rest (c :: cur) (n + 1) e
    end.
Proof. destruct input; reflexivity. Qed.

Lemma sola_app (l1 l2 : list ascii) :
  sola (l1 ++ l2) = (sola l1 ++ sola l2)%string.
Proof. induction l1 as [|a l1 IH]; simpl; [reflexivity | now rewrite IH]. Qed.

Lemma length_sola (l : list ascii) : String.length (sola l) = List.length l.
Proof. induction l as [|a l IH]; simpl; [reflexivity | now rewrite IH]. Qed.

Lemma append_assoc (s1 s2 s3 : string) :
  ((s1 ++ s2) ++ s3 = s1 ++ (s2 ++ s3))%string.
Proof. induction s1 as [|a s1 IH]; simpl; [reflexivity | now rewrite IH]. Qed.

Lemma dropCR_snoc (p : string) (c : ascii) :
  dropCR (p ++ String c EmptyString) =
  if (c =? CR)%char then p else (p ++ String c EmptyString)%string.
Proof.
  induction p as [|a p IH].
  - simpl. now destruct (c =? CR)%char.
  - change (dropCR (String a (p ++ String c EmptyString)) =
            if (c =? CR)%char then String a p
            else String a (p ++ String c EmptyString)).
    assert (E : dropCR (String a (p ++ String c EmptyString)) =
                String a (dropCR (p ++ String c EmptyString)))
      by (destruct p; reflexivity).
    rewrite E, IH. now destruct (c =? CR)%char.
Qed.

Lemma token_dropCR (cur : list ascii) : token cur = dropCR (sola (rev cur)).
Proof.
  destruct cur as [|c cur]; [reflexivity|].
  unfold token.
  change (rev (c :: cur)) with (rev cur ++ [c]).
  rewrite (sola_app (rev cur) [c]).
  change (sola [c]) with (String c EmptyString).
  rewrite dropCR_snoc. destruct (c =? CR)%char; [reflexivity|].
  change (rev (c :: cur)) with (rev cur ++ [c]).
  now rewrite (sola_app (rev cur) [c]).
Qed.

Lemma raw_lines_no_LF (l : list ascii) :
  Forall notLF l ->
  raw_lines (sola l) = match l with [] => [] | _ :: _ => [sola l] end.
Proof.
  induction 1 as [|c l Hc Hl IH]; [reflexivity|].
  simpl. rewrite Hc, IH. now destruct l.
Qed.

Lemma raw_lines_nonempty_no_LF (l : list ascii) :
  Forall notLF l -> l <> [] -> raw_lines (sola l) = [sola l].
Proof.
  intros H Hne. rewrite raw_lines_no_LF by assumption.
  destruct l; congruence.
Qed.

Lemma raw_lines_app_LF (l : list ascii) (rest : string) :
  Forall notLF l ->
  raw_lines (sola l ++ String LF rest) = sola l :: raw_lines rest.
Proof.
  induction 1 as [|c l Hc Hl IH]; [reflexivity|].
  simpl. now rewrite Hc, IH.
Qed.

Lemma raw_lines_head_length (l : list ascii) (s : string) :
  Forall notLF l -> l <> [] ->
  exists x xs, raw_lines (sola l ++ s) = x :: xs
               /\ (List.length l <= String.length x)%nat.
Proof.
  induction 1 as [|c l Hc Hl IH]; [congruence|]. intros _.
  simpl. rewrite Hc.
  destruct l as [|c' l'].
  - simpl. destruct (raw_lines s) as [|x xs]; eexists; eexists;
      (split; [reflexivity | simpl; lia]).
  - destruct IH as (x & xs & E & Hlen); [congruence|].
    rewrite E. exists (String c x), xs. split; [reflexivity|].
    simpl in *. lia.
Qed.

(** On a text whose lines all fit the buffer, the scanner yields the
    lines of the text and the error of the reader. *)
Lemma scan_lines (s : string) : forall (cur : list ascii) (e : option error),
  Forall notLF cur ->
  Forall short_line (raw_lines (sola (rev cur) ++ s)) ->
  scan s cur (Z.of_nat (List.length cur)) e = (lines (sola (rev cur) ++ s), e).
Proof.
  induction s as [|c rest IH]; intros cur e Hcur Hshort.
  - assert (Hrev : Forall notLF (rev cur)) by now apply Forall_rev.
    assert (A : (sola (rev cur) ++ "")%string = sola (rev cur))
      by (generalize (sola (rev cur)); intros t; induction t; simpl; congruence).
    rewrite A in *. unfold lines. rewrite scan_eq.
    destruct cur as [|a cur'].
    + reflexivity.
    + assert (Hne : rev (a :: cur') <> [])
        by (simpl; intros H; apply app_eq_nil in H; destruct H; discriminate).
      rewrite (raw_lines_nonempty_no_LF _ Hrev Hne) in *.
      pose proof (Forall_inv Hshort) as Hs.
      unfold short_line in Hs. rewrite length_sola, length_rev in Hs.
      destruct (Z.leb_spec MaxScanTokenSize (Z.of_nat (List.length (a :: cur'))));
        [lia|].
      simpl map. now rewrite token_dropCR.
  - assert (Hrev : Forall notLF (rev cur)) by now apply Forall_rev.
    rewrite scan_eq.
    assert (Hfit : Z.of_nat (List.length cur) < MaxScanTokenSize).
    { destruct cur as [|a cur']; [unfold MaxScanTokenSize; simpl; lia|].
      destruct (raw_lines_head_length (rev (a :: cur')) (String c rest) Hrev)
        as (x & xs & E & Hlen).
      - simpl; intros H; apply app_eq_nil in H; destruct H; discriminate.
      - rewrite E in Hshort. pose proof (Forall_inv Hshort) as Hs.
        unfold short_line in Hs. rewrite length_rev in Hlen. lia. }
    destruct (Z.leb_spec MaxScanTokenSize (Z.of_nat (List.length cur))); [lia|].
    destruct (c =? LF)%char eqn:Ec.
    + apply Ascii.eqb_eq in Ec; subst c.
      rewrite raw_lines_app_LF in Hshort by assumption.
      unfold lines. rewrite raw_lines_app_LF by assumption.
      pose proof (Forall_inv_tail Hshort) as Hrest.
      specialize (IH [] e (Forall_nil _) Hrest). simpl in IH.
      rewrite IH. simpl map. now rewrite token_dropCR.
    + assert (A : (sola (rev cur) ++ String c rest)%string =
                  (sola (rev (c :: cur)) ++ rest)%string).
      { simpl rev. rewrite sola_app, append_assoc. reflexivity. }
      rewrite A in *.
      replace (Z.of_nat (List.length cur) + 1)
        with (Z.of_nat (List.length (c :: cur))) by (simpl List.length; lia).
      apply IH; [constructor; assumption | assumption].
Qed.

Lemma ScanAll_lines (r : Reader) :
  Forall short_line (raw_lines (data r)) ->
  ScanAll r = (lines (data r), read_err r).
Proof.
  intros H. unfold ScanAll.
  exact (scan_lines (data r) [] (read_err r) (Forall_nil _) H).
Qed.

(** A read error always surfaces as an error of the scan. *)
Lemma scan_read_err (s : string) : forall cur n e,
  snd (scan s cur n (Some e)) <> None.
Proof.
  induction s as [|c rest IH]; intros cur n e; rewrite scan_eq;
    destruct (MaxScanTokenSize <=? n); simpl; try discriminate.
  destruct (c =? LF)%char.
  - specialize (IH [] 0 e).
    destruct (scan rest [] 0 (Some e)) as [toks e']. simpl in *. exact IH.
  - apply IH.
Qed.

(** Joining lines with newlines and splitting again gives the lines
    back. *)
Lemma raw_lines_unlines (ls : list (list ascii)) :
  Forall (Forall notLF) ls ->
  raw_lines (unlines (map sola ls)) = map sola ls.
Proof.
  induction 1 as [|l ls Hl Hls IH]; [reflexivity|].
  simpl. now rewrite raw_lines_app_LF, IH.
Qed.

End BufioFacts.

(** ** The list *)

Section Properties.

Variable filepath_Dir : string -> string.
Variable ParseAddr : string -> option Addr.

(** *** The membership scan *)

Lemma rangeCompare_true_iff (l : list Addr) (ip : Addr) :
  rangeCompare l ip = true <->
  exists listIP, In listIP l /\ Compare listIP ip = 0.
Proof.
  induction l as [|a l IH]; simpl.
  - split; [discriminate | intros (x & [] & _)].
  - destruct (Z.eqb_spec (Compare a ip) 0) as [E|E].
    + split; [intros _; exists a; auto | reflexivity].
    + rewrite IH. split.
      * intros (x & Hin & Hx). exists x; auto.
      * intros (x & [<-|Hin] & Hx); [contradiction | exists x; auto].
Qed.

Lemma rangeCompare_true_In (l : list Addr) (ip : Addr) :
  rangeCompare l ip = true <-> In ip l.
Proof.
  rewrite rangeCompare_true_iff. split.
  - intros (x & Hin & Hx). apply NetipFacts.Compare_eq_iff in Hx. now subst.
  - intros Hin. exists ip. split; [assumption|].
    now apply NetipFacts.Compare_eq_iff.
Qed.

Lemma rangeCompare_false_iff (l : list Addr) (ip : Addr) :
  rangeCompare l ip = false <->
  forall listIP, In listIP l -> Compare listIP ip <> 0.
Proof.
  split.
  - intros H x Hin Hx.
    assert (T : rangeCompare l ip = true)
      by (apply rangeCompare_true_iff; exists x; auto).
    congruence.
  - intros H. destruct (rangeCompare l ip) eqn:E; [|reflexivity].
    apply rangeCompare_true_iff in E. destruct E as (x & Hin & Hx).
    now apply H in Hin.
Qed.

(** *** Loading *)

Lemma fold_appendParsed (ls : list string) : forall acc,
  fold_left (appendParsed ParseAddr) ls acc
  = acc ++ parsed_addresses ParseAddr ls.
Proof.
  induction ls as [|l ls IH]; intros acc; simpl.
  - now rewrite app_nil_r.
  - rewrite IH. unfold appendParsed.
    destruct (ParseAddr l); [now rewrite <- app_assoc | reflexivity].
Qed.

Lemma ipFileExists_false_iff (fs : FS) (b : IPList) :
  ipFileExists fs b = false <->
  file_absent fs (ipFile b) \/ is_directory fs (ipFile b).
Proof.
  unfold ipFileExists, file_absent, is_directory.
  destruct (Lstat fs (ipFile b)) as [st|e].
  - destruct (IsDir st) eqn:D; split; try reflexivity; try discriminate.
    + intros _. right. now exists st.
    + intros [(e & He)|(st' & Hst & Hd)]; congruence.
  - split; [intros _; left; now exists e | reflexivity].
Qed.

Lemma ipFileExists_true_iff (fs : FS) (b : IPList) :
  ipFileExists fs b = true <-> file_exists fs (ipFile b).
Proof.
  unfold ipFileExists, file_exists.
  destruct (Lstat fs (ipFile b)) as [st|e].
  - destruct (IsDir st) eqn:D; split; try reflexivity; try discriminate.
    + intros (st' & Hst & Hd); congruence.
    + intros _. now exists st.
  - split; [discriminate | intros (st & Hst & _); discriminate].
Qed.

Lemma load_no_file (fs : FS) (b : IPList) :
  ipFileExists fs b = false ->
  loadIPAddresses ParseAddr fs b
  = (set_ipAddresses
       (logger_Debug b "ip file not found, nothing to monitor") [], None).
Proof. intros H. unfold loadIPAddresses. now rewrite H. Qed.



Lemma load_scanned (fs : FS) (b : IPList) (f : Bufio.Reader)
      (toks : list string) :
  ipFileExists fs b = true -> Open fs (ipFile b) = Ok f ->
  Bufio.ScanAll f = (toks, None) ->
  loadIPAddresses ParseAddr fs b
  = (set_ipAddresses b (parsed_addresses ParseAddr toks), None).
Proof.
  intros H O S. unfold loadIPAddresses. rewrite H, O, S. simpl.
  now rewrite fold_appendParsed.
Qed.

(** A failed load leaves the list as it was. *)
Lemma load_failure_unchanged (fs : FS) (b : IPList) (err : error) :
  snd (loadIPAddresses ParseAddr fs b) = Some err ->
  fst (loadIPAddresses ParseAddr fs b) = b.
Proof.
  unfold loadIPAddresses.
  destruct (ipFileExists fs b); simpl; [|discriminate].
  destruct (Open fs (ipFile b)) as [f|e]; [|reflexivity].
  destruct (Bufio.ScanAll f) as [toks [e|]]; simpl; [reflexivity|discriminate].
Qed.

(** A load fails only on a file that exists and cannot be opened or
    scanned to its end. *)
Lemma load_failure_cause (fs : FS) (b : IPList) (err : error) :
  snd (loadIPAddresses ParseAddr fs b) = Some err ->
  file_exists fs (ipFile b)
  /\ ((exists e, Open fs (ipFile b) = Err e)
      \/ (exists f e, Open fs (ipFile b) = Ok f
                      /\ snd (Bufio.ScanAll f) = Some e)).
Proof.
  unfold loadIPAddresses.
  destruct (ipFileExists fs b) eqn:X; simpl; [|discriminate].
  apply ipFileExists_true_iff in X. intros H. split; [assumption|].
  destruct (Open fs (ipFile b)) as [f|e]; [|left; now exists e].
  right. exists f.
  destruct (Bufio.ScanAll f) as [toks [e|]]; simpl in *;
    [now exists e | discriminate].
Qed.

Lemma load_ipFile (fs : FS) (b : IPList) :
  ipFile (fst (loadIPAddresses ParseAddr fs b)) = ipFile b.
Proof.
  unfold loadIPAddresses.
  destruct (ipFileExists fs b); simpl; [|reflexivity].
  destruct (Open fs (ipFile b)) as [f|e]; [|reflexivity].
  destruct (Bufio.ScanAll f) as [toks [e|]]; reflexivity.
Qed.

Lemma load_reloadNeeded (fs : FS) (b : IPList) :
  reloadNeeded (fst (loadIPAddresses ParseAddr fs b)) = reloadNeeded b.
Proof.
  unfold loadIPAddresses.
  destruct (ipFileExists fs b); simpl; [|reflexivity].
  destruct (Open fs (ipFile b)) as [f|e]; [|reflexivity].
  destruct (Bufio.ScanAll f) as [toks [e|]]; reflexivity.
Qed.

(** *** One query *)

Lemma reloadIfNeeded_clean (fs : FS) (b : IPList) :
  reloadNeeded b = false -> reloadIfNeeded ParseAddr fs b = b.
Proof. intros H. unfold reloadIfNeeded. now rewrite H. Qed.

Lemma reloadIfNeeded_failure (fs : FS) (b : IPList) (err : error) :
  reloadNeeded b = true ->
  snd (loadIPAddresses ParseAddr fs b) = Some err ->
  reloadIfNeeded ParseAddr fs b
  = logger_Error b "could not load IP addresses" (Some err).
Proof.
  intros H L. unfold reloadIfNeeded. rewrite H.
  pose proof (load_failure_unchanged fs b err L) as U.
  destruct (loadIPAddresses ParseAddr fs b) as [b1 e]. simpl in *.
  now subst.
Qed.

Lemma reloadIfNeeded_success (fs : FS) (b : IPList) :
  reloadNeeded b = true ->
  snd (loadIPAddresses ParseAddr fs b) = None ->
  reloadIfNeeded ParseAddr fs b
  = logger_Debug
      (set_reloadNeeded (fst (loadIPAddresses ParseAddr fs b)) false)
      "reloaded IP addresses".
Proof.
  intros H L. unfold reloadIfNeeded. rewrite H.
  destruct (loadIPAddresses ParseAddr fs b) as [b1 e]. simpl in *.
  now subst.
Qed.

Lemma reloadIfNeeded_ipFile (fs : FS) (b : IPList) :
  ipFile (reloadIfNeeded ParseAddr fs b) = ipFile b.
Proof.
  unfold reloadIfNeeded. destruct (reloadNeeded b); [|reflexivity].
  pose proof (load_ipFile fs b) as P.
  destruct (loadIPAddresses ParseAddr fs b) as [b1 [e|]]; simpl in *; exact P.
Qed.

(** The snapshot after the locked part of a query is the one a load
    leaves: the new one if it succeeds, the old one if it fails. *)
Lemma reloadIfNeeded_snapshot (fs : FS) (b : IPList) :
  reloadNeeded b = true ->
  ipAddresses (reloadIfNeeded ParseAddr fs b)
  = ipAddresses (fst (loadIPAddresses ParseAddr fs b)).
Proof.
  intros H. unfold reloadIfNeeded. rewrite H.
  destruct (loadIPAddresses ParseAddr fs b) as [b1 [e|]]; reflexivity.
Qed.

(** *** Claims about a single call *)

(** C1.  [IsMatched(ip)] returns true if and only if some address of the
    snapshot stored when the scan runs compares equal to [ip], which is
    the same as [ip] itself occurring in it; the answer is that of the
    linear scan, which is true as soon as an element matches, whatever
    follows it, and false when the sequence is exhausted without a
    match. *)
Theorem C1_IsMatched_iff_snapshot_contains
        (fs : FS) (b : IPList) (ip : Addr) (b' : IPList) (r : bool) :
  IsMatched ParseAddr fs b ip = (b', r) ->
  (r = true <->
     exists listIP, In listIP (ipAddresses b') /\ Compare listIP ip = 0)
  /\ (r = true <-> In ip (ipAddresses b'))
  /\ (forall pre listIP post,
        ipAddresses b' = pre ++ listIP :: post ->
        Compare listIP ip = 0 -> r = true)
  /\ ((forall listIP, In listIP (ipAddresses b') -> Compare listIP ip <> 0) ->
      r = false).
Proof.
  unfold IsMatched. intros [= <- <-].
  repeat split.
  - apply rangeCompare_true_iff.
  - apply rangeCompare_true_iff.
  - apply rangeCompare_true_In.
  - apply rangeCompare_true_In.
  - intros pre listIP post E Hc. apply rangeCompare_true_iff.
    exists listIP. split; [|assumption].
    rewrite E. apply in_or_app. right. now left.
  - apply rangeCompare_false_iff.
Qed.

(** C2.  If the reload attempted inside [IsMatched] fails, then after the
    call the dirty flag is still set and the stored snapshot is the one
    from before the call, which is also the one the call answers from;
    the failure is logged; and the next query loads again: its snapshot
    is whatever a load at that moment leaves. *)
Theorem C2_failed_reload_keeps_flag_and_snapshot
        (fs : FS) (b : IPList) (ip : Addr) (err : error)
        (b' : IPList) (r : bool) :
  reloadNeeded b = true ->
  snd (loadIPAddresses ParseAddr fs b) = Some err ->
  IsMatched ParseAddr fs b ip = (b', r) ->
  reloadNeeded b' = true
  /\ ipAddresses b' = ipAddresses b
  /\ r = rangeCompare (ipAddresses b) ip
  /\ logger b'
     = logger b ++ [mkLogEntry ErrorLevel "could not load IP addresses"
                      (Some err)]
  /\ (forall fs2 ip2,
        ipAddresses (fst (IsMatched ParseAddr fs2 b' ip2))
        = ipAddresses (fst (loadIPAddresses ParseAddr fs2 b'))).
Proof.
  intros Hflag Hload. unfold IsMatched.
  rewrite (reloadIfNeeded_failure fs b err Hflag Hload).
  intros [= <- <-]. simpl.
  repeat split; try assumption.
  intros fs2 ip2. now apply reloadIfNeeded_snapshot.
Qed.


Lemma parsed_addresses_app (ls1 ls2 : list string) :
  parsed_addresses ParseAddr (ls1 ++ ls2)
  = parsed_addresses ParseAddr ls1 ++ parsed_addresses ParseAddr ls2.
Proof.
  induction ls1 as [|l ls1 IH]; simpl; [reflexivity|].
  rewrite IH. now destruct (ParseAddr l).
Qed.

(** A line that is not an address contributes nothing. *)
Lemma parsed_addresses_drop (ls1 ls2 : list string) (l : string) :
  ParseAddr l = None ->
  parsed_addresses ParseAddr (ls1 ++ l :: ls2)
  = parsed_addresses ParseAddr (ls1 ++ ls2).
Proof.
  intros H. rewrite !parsed_addresses_app. simpl. now rewrite H.
Qed.

Lemma In_parsed_addresses (ls : list string) (ip : Addr) :
  In ip (parsed_addresses ParseAddr ls) <->
  exists l, In l ls /\ ParseAddr l = Some ip.
Proof.
  induction ls as [|l ls IH]; simpl.
  - split; [intros [] | intros (l & [] & _)].
  - destruct (ParseAddr l) as [a|] eqn:E; simpl; rewrite IH; split.
    + intros [<-|(l' & Hin & Hl')]; [exists l; auto | exists l'; auto].
    + intros (l' & [<-|Hin] & Hl'); [left; congruence | right; exists l'; auto].
    + intros (l' & Hin & Hl'). exists l'; auto.
    + intros (l' & [<-|Hin] & Hl'); [congruence | exists l'; auto].
Qed.

(** C4, amended.  For every file that is read without error and whose
    lines are all shorter than the scanner's buffer of 65536 bytes,
    loading leaves exactly the successfully parsed addresses of its
    lines, in line order, and no error; a line that does not parse is
    dropped: the result is the one the lines without it would give. *)
Theorem C4_load_keeps_parsed_lines_in_order
        (fs : FS) (b : IPList) (f : Bufio.Reader) :
  file_exists fs (ipFile b) ->
  Open fs (ipFile b) = Ok f ->
  Bufio.read_err f = None ->
  Forall Bufio.short_line (Bufio.raw_lines (Bufio.data f)) ->
  loads_parsed_lines ParseAddr fs b f
  /\ (forall ip,
        In ip (ipAddresses (fst (loadIPAddresses ParseAddr fs b))) <->
        exists l, In l (Bufio.lines (Bufio.data f)) /\ ParseAddr l = Some ip)
  /\ (forall ls1 l ls2,
        Bufio.lines (Bufio.data f) = ls1 ++ l :: ls2 ->
        ParseAddr l = None ->
        loadIPAddresses ParseAddr fs b
        = (set_ipAddresses b (parsed_addresses ParseAddr (ls1 ++ ls2)),
           None)).
Proof.
  intros X O R Hshort.
  assert (L : loads_parsed_lines ParseAddr fs b f).
  { unfold loads_parsed_lines.
    apply (load_scanned fs b f); try assumption.
    - now apply ipFileExists_true_iff.
    - rewrite BufioFacts.ScanAll_lines by assumption. now rewrite R. }
  split; [exact L|]. unfold loads_parsed_lines in L. rewrite L. split.
  - intros ip. simpl. apply In_parsed_addresses.
  - intros ls1 l ls2 E Hl. rewrite E. now rewrite parsed_addresses_drop.
Qed.

(** *** Construction *)

Lemma ipFileDirectoryExists_true_iff (fs : FS) (b : IPList) :
  ipFileDirectoryExists filepath_Dir fs b = true <->
  dir_exists fs (filepath_Dir (ipFile b)).
Proof.
  unfold ipFileDirectoryExists, dir_exists.
  destruct (Lstat fs (filepath_Dir (ipFile b))) as [st|e].
  - destruct (IsDir st) eqn:D; simpl; split; try reflexivity; try discriminate.
    + intros _. now exists st.
    + intros (st' & Hst & Hd); congruence.
  - split; [discriminate | intros (st & Hst & _); discriminate].
Qed.



(** *** The watcher *)

Lemma monitor_step_ipFile (b : IPList) (c : SelectCase) :
  ipFile (fst (monitor_step b c)) = ipFile b.
Proof.
  destruct c as [|err ok|e ok]; simpl; try reflexivity.
  - now destruct ok.
  - destruct ok; simpl; [|reflexivity].
    now destruct ((ipFile b =? Fsnotify.Name e)%string
                  && (Fsnotify.Has e Fsnotify.Create
                      || Fsnotify.Has e Fsnotify.Write)).
Qed.

Lemma monitor_step_ipAddresses (b : IPList) (c : SelectCase) :
  ipAddresses (fst (monitor_step b c)) = ipAddresses b.
Proof.
  destruct c as [|err ok|e ok]; simpl; try reflexivity.
  - now destruct ok.
  - destruct ok; simpl; [|reflexivity].
    now destruct ((ipFile b =? Fsnotify.Name e)%string
                  && (Fsnotify.Has e Fsnotify.Create
                      || Fsnotify.Has e Fsnotify.Write)).
Qed.

(** A pass of the loop sets the flag on a create or write event for the
    list's path ... *)
Lemma monitor_step_sets (b : IPList) (c : SelectCase) :
  create_or_write_at (ipFile b) c ->
  monitor_step b c = (set_reloadNeeded b true, Watching).
Proof.
  intros (e & -> & Hn & Hop). simpl.
  rewrite <- Hn, String.eqb_refl.
  destruct Hop as [-> | ->]; simpl; [reflexivity|].
  now rewrite orb_true_r.
Qed.

(** ... and on nothing else. *)
Lemma monitor_step_flag (b : IPList) (c : SelectCase) :
  reloadNeeded (fst (monitor_step b c)) = reloadNeeded b
  \/ create_or_write_at (ipFile b) c.
Proof.
  destruct c as [|err ok|e ok]; simpl; auto.
  - left. now destruct ok.
  - destruct ok; simpl; auto.
    destruct (String.eqb_spec (ipFile b) (Fsnotify.Name e)) as [En|En];
      simpl; auto.
    destruct (Fsnotify.Has e Fsnotify.Create) eqn:Ec; simpl.
    + right. exists e. auto.
    + destruct (Fsnotify.Has e Fsnotify.Write) eqn:Ew; simpl; auto.
      right. exists e. auto.
Qed.

Lemma monitor_step_keeps_set (b : IPList) (c : SelectCase) :
  reloadNeeded b = true -> reloadNeeded (fst (monitor_step b c)) = true.
Proof.
  intros H. destruct (monitor_step_flag b c) as [E|Hc].
  - congruence.
  - now rewrite (monitor_step_sets b c Hc).
Qed.

Lemma not_create_or_write (p : string) (c : SelectCase) :
  other_path_or_delete p c -> ~ create_or_write_at p c.
Proof.
  intros H (e & -> & Hn & Hop). simpl in H.
  destruct H as [H|H]; [congruence|].
  unfold is_delete in H. unfold Fsnotify.Has in Hop. rewrite H in Hop.
  destruct Hop as [Hop|Hop]; vm_compute in Hop; discriminate.
Qed.

Lemma monitor_loop_flag (recv : list SelectCase) : forall b b' t,
  monitor_loop b recv = (b', t) ->
  ipAddresses b' = ipAddresses b
  /\ (reloadNeeded b = true -> reloadNeeded b' = true)
  /\ (reloadNeeded b' = true ->
      reloadNeeded b = true \/ Exists (create_or_write_at (ipFile b)) recv).
Proof.
  induction recv as [|c rest IH]; intros b b' t; simpl.
  - intros [= <- <-]. auto.
  - pose proof (monitor_step_ipFile b c) as Hf.
    pose proof (monitor_step_ipAddresses b c) as Ha.
    pose proof (monitor_step_flag b c) as Hs.
    pose proof (monitor_step_keeps_set b c) as Hk.
    destruct (monitor_step b c) as [b1 [|]]; simpl in *.
    + intros Hl. destruct (IH _ _ _ Hl) as (IHa & IHk & IHs).
      split; [congruence|]. split; [auto|].
      intros Hb'. destruct (IHs Hb') as [H1|H1].
      * destruct Hs as [Hs|Hs]; [left; congruence | right; now left].
      * right. right. now rewrite <- Hf.
    + intros [= <- <-]. split; [assumption|]. split; [assumption|].
      intros Hb1. destruct Hs as [Hs|Hs]; [left; congruence | right; now left].
Qed.

(** C6.  Over any run of the watcher, the dirty flag is set afterwards
    only if it was set before or a create or write event for exactly the
    list's path was received; if all that is received are events for
    other paths and plain delete events, the flag is left as it was; a
    create or write event for the list's path does set it; and the
    watcher never touches the snapshot. *)
Theorem C6_watcher_sets_flag_only_on_create_or_write
        (fs : FS) (b : IPList) (newWatcher : option error)
        (add : string -> option error) (recv : list SelectCase)
        (b' : IPList) (t : TaskState) :
  monitor filepath_Dir fs b newWatcher add recv = (b', t) ->
  (reloadNeeded b' = true ->
   reloadNeeded b = true \/ Exists (create_or_write_at (ipFile b)) recv)
  /\ (Forall (other_path_or_delete (ipFile b)) recv ->
      reloadNeeded b' = reloadNeeded b)
  /\ (forall c, create_or_write_at (ipFile b) c ->
                monitor_step b c = (set_reloadNeeded b true, Watching))
  /\ ipAddresses b' = ipAddresses b.
Proof.
  intros Hm.
  assert (H : ipAddresses b' = ipAddresses b
              /\ (reloadNeeded b = true -> reloadNeeded b' = true)
              /\ (reloadNeeded b' = true ->
                  reloadNeeded b = true
                  \/ Exists (create_or_write_at (ipFile b)) recv)).
  { unfold monitor in Hm.
    destruct newWatcher as [err|]; [injection Hm as <- <-; simpl; auto|].
    destruct (ipFileDirectoryExists filepath_Dir fs b); simpl in Hm;
      [|injection Hm as <- <-; simpl; auto].
    destruct (add (filepath_Dir (ipFile b))) as [err|];
      [injection Hm as <- <-; simpl; auto|].
    now apply monitor_loop_flag in Hm. }
  destruct H as (Ha & Hk & Hs).
  split; [exact Hs|]. split; [|split; [apply monitor_step_sets | exact Ha]].
  intros Hall.
  destruct (reloadNeeded b) eqn:Eb; [now apply Hk|].
  destruct (reloadNeeded b') eqn:Eb'; [|reflexivity].
  destruct (Hs eq_refl) as [H|H]; [discriminate|].
  apply Exists_exists in H. destruct H as (c & Hin & Hc).
  rewrite Forall_forall in Hall.
  now apply (not_create_or_write _ _ (Hall c Hin)) in Hc.
Qed.

(** *** The list in use *)

Lemma run_cons (s : System) (a : Action) (rest : list Action) :
  run ParseAddr s (a :: rest)
  = (fst (run ParseAddr (fst (act ParseAddr s a)) rest),
     snd (act ParseAddr s a)
     ++ snd (run ParseAddr (fst (act ParseAddr s a)) rest)).
Proof.
  simpl. destruct (act ParseAddr s a) as [s1 r1]. simpl.
  now destruct (run ParseAddr s1 rest) as [s2 r2].
Qed.

(** While there is no file at the list's path, an empty snapshot stays
    empty and every query answers false. *)
Lemma act_without_file (p : string) (s : System) (a : Action) :
  ipFile (sys_list s) = p ->
  ipAddresses (sys_list s) = [] ->
  no_file (sys_fs s) p ->
  fs_stays (fun fs => no_file fs p) a ->
  ipFile (sys_list (fst (act ParseAddr s a))) = p
  /\ ipAddresses (sys_list (fst (act ParseAddr s a))) = []
  /\ no_file (sys_fs (fst (act ParseAddr s a))) p
  /\ Forall (eq false) (snd (act ParseAddr s a)).
Proof.
  intros Hp Ha Hn Hs. destruct s as [fs b t]. simpl in *.
  destruct a as [ip|c|fs']; simpl.
  - assert (E : ipAddresses (reloadIfNeeded ParseAddr fs b) = []).
    { unfold reloadIfNeeded. destruct (reloadNeeded b); [|assumption].
      rewrite load_no_file; [reflexivity|].
      apply ipFileExists_false_iff. now rewrite Hp. }
    unfold IsMatched. simpl. rewrite reloadIfNeeded_ipFile, E. simpl.
    repeat split; auto.
  - destruct t; simpl; [|repeat split; auto].
    pose proof (monitor_step_ipFile b c) as Hf.
    pose proof (monitor_step_ipAddresses b c) as Hi.
    destruct (monitor_step b c) as [b1 t1]. simpl in *.
    repeat split; auto; congruence.
  - repeat split; auto.
Qed.

Lemma run_without_file (p : string) (acts : list Action) : forall s,
  ipFile (sys_list s) = p ->
  ipAddresses (sys_list s) = [] ->
  no_file (sys_fs s) p ->
  Forall (fs_stays (fun fs => no_file fs p)) acts ->
  Forall (eq false) (snd (run ParseAddr s acts)).
Proof.
  induction acts as [|a rest IH]; intros s Hp Ha Hn Hall.
  - constructor.
  - rewrite run_cons. simpl.
    destruct (act_without_file p s a Hp Ha Hn (Forall_inv Hall))
      as (Hp1 & Ha1 & Hn1 & Hr1).
    apply Forall_app. split; [assumption|].
    apply IH; try assumption. exact (Forall_inv_tail Hall).
Qed.

Lemma fs_stays_weaken (P Q : FS -> Prop) (acts : list Action) :
  (forall fs, P fs -> Q fs) ->
  Forall (fs_stays P) acts -> Forall (fs_stays Q) acts.
Proof.
  intros HPQ. apply Forall_impl. intros [ip|c|fs]; simpl; auto.
Qed.

(** C7.  Whenever the parent directory exists, [NewIPList] returns a
    list, whether or not the file exists; and as long as no file exists
    at the path, every [IsMatched] query on that list returns false,
    whatever the watcher receives in between. *)
Theorem C7_fresh_list_without_file_matches_nothing
        (fs : FS) (path : string) (lg : list LogEntry)
        (acts : list Action) :
  dir_exists fs (filepath_Dir path) ->
  file_absent fs path ->
  Forall (fs_stays (fun fs' => file_absent fs' path)) acts ->
  exists b,
    NewIPList filepath_Dir fs path lg = Ok b
    /\ (forall ip, snd (IsMatched ParseAddr fs b ip) = false)
    /\ (forall t,
          Forall (eq false) (snd (run ParseAddr (mkSystem fs b t) acts))).
Proof.
  intros Hd Habs Hall.
  exists {| ipFile := path; ipAddresses := []; logger := lg;
            reloadNeeded := true |}.
  split.
  - unfold NewIPList.
    assert (E : ipFileDirectoryExists filepath_Dir fs
                  {| ipFile := path; ipAddresses := []; logger := lg;
                     reloadNeeded := true |} = true)
      by now apply ipFileDirectoryExists_true_iff.
    now rewrite E.
  - split.
    + intros ip.
      pose proof (run_without_file path [Query ip]
                    (mkSystem fs {| ipFile := path; ipAddresses := [];
                                    logger := lg; reloadNeeded := true |}
                       Watching)
                    eq_refl eq_refl (or_introl Habs)
                    (Forall_cons (P := fs_stays (fun fs' => no_file fs' path))
                       (Query ip) I (Forall_nil _))) as H.
      rewrite run_cons in H. simpl in H.
      apply Forall_inv in H. unfold IsMatched. simpl. now rewrite <- H.
    + intros t. apply (run_without_file path); simpl; auto.
      * now left.
      * apply (fs_stays_weaken (fun fs' => file_absent fs' path));
          [intros fs' H; now left | assumption].
Qed.


(** *** Repeated queries *)

Lemma reloads_log (b : IPList) (e : LogEntry) :
  reloads (log b e) = (reloads b + if is_reloaded e then 1 else 0)%nat.
Proof.
  unfold reloads, log. simpl. rewrite filter_app, length_app. simpl.
  now destruct (is_reloaded e).
Qed.

Lemma load_failures_log (b : IPList) (e : LogEntry) :
  load_failures (log b e)
  = (load_failures b + if is_load_failure e then 1 else 0)%nat.
Proof.
  unfold load_failures, log. simpl. rewrite filter_app, length_app. simpl.
  now destruct (is_load_failure e).
Qed.

(** A load changes neither count: it logs at most that the file is not
    there. *)
Lemma load_counts (fs : FS) (b : IPList) :
  reloads (fst (loadIPAddresses ParseAddr fs b)) = reloads b
  /\ load_failures (fst (loadIPAddresses ParseAddr fs b)) = load_failures b.
Proof.
  unfold loadIPAddresses.
  destruct (ipFileExists fs b); simpl.
  - destruct (Open fs (ipFile b)) as [f|e]; [|split; reflexivity].
    destruct (Bufio.ScanAll f) as [toks [e|]]; split; reflexivity.
  - unfold reloads, load_failures. simpl.
    rewrite !filter_app, !length_app. simpl. split; lia.
Qed.

(** Whether a load fails depends on the list only through its path. *)
Lemma load_error_ext (fs : FS) (b1 b2 : IPList) :
  ipFile b1 = ipFile b2 ->
  snd (loadIPAddresses ParseAddr fs b1) = snd (loadIPAddresses ParseAddr fs b2).
Proof.
  intros E. unfold loadIPAddresses, ipFileExists. rewrite E.
  destruct (Lstat fs (ipFile b2)) as [st|e]; simpl; [|reflexivity].
  destruct (IsDir st); simpl; [reflexivity|].
  destruct (Open fs (ipFile b2)) as [f|e]; [|reflexivity].
  destruct (Bufio.ScanAll f) as [toks [e|]]; reflexivity.
Qed.

Lemma IsMatched_clean (fs : FS) (b : IPList) (ip : Addr) :
  reloadNeeded b = false ->
  IsMatched ParseAddr fs b ip = (b, rangeCompare (ipAddresses b) ip).
Proof.
  intros H. unfold IsMatched. now rewrite reloadIfNeeded_clean.
Qed.

Lemma run_query_cons (fs : FS) (b : IPList) (t : TaskState) (ip : Addr)
      (rest : list Action) :
  run ParseAddr (mkSystem fs b t) (Query ip :: rest)
  = (fst (run ParseAddr
            (mkSystem fs (fst (IsMatched ParseAddr fs b ip)) t) rest),
     snd (IsMatched ParseAddr fs b ip)
       :: snd (run ParseAddr
                 (mkSystem fs (fst (IsMatched ParseAddr fs b ip)) t) rest)).
Proof.
  rewrite run_cons. unfold act. cbn [sys_fs sys_list sys_task].
  now destruct (IsMatched ParseAddr fs b ip) as [b1 r].
Qed.

Lemma IsMatched_failure (fs : FS) (b : IPList) (ip : Addr) (err : error) :
  reloadNeeded b = true ->
  snd (loadIPAddresses ParseAddr fs b) = Some err ->
  IsMatched ParseAddr fs b ip
  = (logger_Error b "could not load IP addresses" (Some err),
     rangeCompare (ipAddresses b) ip).
Proof.
  intros H L. unfold IsMatched. now rewrite (reloadIfNeeded_failure fs b err H L).
Qed.

Lemma IsMatched_success (fs : FS) (b : IPList) (ip : Addr) :
  reloadNeeded b = true ->
  snd (loadIPAddresses ParseAddr fs b) = None ->
  IsMatched ParseAddr fs b ip
  = (logger_Debug
       (set_reloadNeeded (fst (loadIPAddresses ParseAddr fs b)) false)
       "reloaded IP addresses",
     rangeCompare (ipAddresses (fst (loadIPAddresses ParseAddr fs b))) ip).
Proof.
  intros H L. unfold IsMatched. now rewrite (reloadIfNeeded_success fs b H L).
Qed.

Lemma queries_clean (fs : FS) (t : TaskState) (ip : Addr) (b : IPList)
      (n : nat) :
  reloadNeeded b = false ->
  run ParseAddr (mkSystem fs b t) (repeat (Query ip) n)
  = (mkSystem fs b t, repeat (rangeCompare (ipAddresses b) ip) n).
Proof.
  intros H. induction n as [|n IH]; [reflexivity|].
  simpl repeat. rewrite run_query_cons.
  rewrite (IsMatched_clean fs b ip H). cbn [fst snd]. now rewrite IH.
Qed.

Lemma queries_failing (fs : FS) (t : TaskState) (ip : Addr) (n : nat) :
  forall b,
    reloadNeeded b = true ->
    snd (loadIPAddresses ParseAddr fs b) <> None ->
    exists b',
      run ParseAddr (mkSystem fs b t) (repeat (Query ip) n)
      = (mkSystem fs b' t, repeat (rangeCompare (ipAddresses b) ip) n)
      /\ reloads b' = reloads b
      /\ load_failures b' = (load_failures b + n)%nat
      /\ reloadNeeded b' = true
      /\ ipAddresses b' = ipAddresses b.
Proof.
  induction n as [|n IH]; intros b Hflag Hfail.
  - exists b. simpl. repeat split; try assumption; lia.
  - destruct (snd (loadIPAddresses ParseAddr fs b)) as [err|] eqn:L;
      [|congruence].
    pose proof (IsMatched_failure fs b ip err Hflag L) as R.
    set (b1 := logger_Error b "could not load IP addresses" (Some err)) in *.
    assert (Hfail1 : snd (loadIPAddresses ParseAddr fs b1) <> None)
      by (rewrite (load_error_ext fs b1 b eq_refl), L; discriminate).
    assert (Hflag1 : reloadNeeded b1 = true) by exact Hflag.
    destruct (IH b1 Hflag1 Hfail1) as (b' & Hrun & Hr & Hf & Hn & Ha).
    exists b'. simpl repeat. rewrite run_query_cons, R. cbn [fst snd].
    rewrite Hrun. cbn [fst snd].
    repeat split; try assumption.
    + rewrite Hr. unfold b1, logger_Error. now rewrite reloads_log, Nat.add_0_r.
    + rewrite Hf. unfold b1, logger_Error. rewrite load_failures_log. simpl. lia.
Qed.

(** C8.  Repeated [IsMatched] calls with the same address, with the file
    system unchanged and nothing setting the dirty flag in between, all
    return the same result, and among them the list is reloaded at most
    once.  If the load succeeds, it is the only load that is attempted and
    it leaves the flag clear; and a query that finds the flag clear leaves
    the list untouched and only scans. *)
Theorem C8_repeated_queries_agree_and_reload_once
        (fs : FS) (b : IPList) (t : TaskState) (ip : Addr) (n : nat)
        (s' : System) (rs : list bool) :
  run ParseAddr (mkSystem fs b t) (repeat (Query ip) n) = (s', rs) ->
  (exists r, rs = repeat r n)
  /\ (reloads (sys_list s') <= reloads b + 1)%nat
  /\ (snd (loadIPAddresses ParseAddr fs b) = None ->
      (reloads (sys_list s') + load_failures (sys_list s')
       <= reloads b + load_failures b + 1)%nat
      /\ (0 < n -> reloadNeeded (sys_list s') = false)%nat)
  /\ (forall fs0 b0 ip0,
        reloadNeeded b0 = false ->
        IsMatched ParseAddr fs0 b0 ip0
        = (b0, rangeCompare (ipAddresses b0) ip0)).
Proof.
  intros Hrun.
  split; [|split; [|split; [|intros fs0 b0 ip0; apply IsMatched_clean]]].
  - destruct (reloadNeeded b) eqn:Hflag.
    + destruct (snd (loadIPAddresses ParseAddr fs b)) as [err|] eqn:L.
      * destruct (queries_failing fs t ip n b Hflag) as (b' & Hr & _);
          [congruence|].
        rewrite Hr in Hrun. injection Hrun as <- <-. eexists; reflexivity.
      * destruct n as [|n]; [injection Hrun as <- <-; exists false; reflexivity|].
        simpl repeat in Hrun.
        rewrite run_query_cons, (IsMatched_success fs b ip Hflag L) in Hrun.
        cbn [fst snd] in Hrun.
        rewrite queries_clean in Hrun by reflexivity.
        injection Hrun as <- <-. simpl. eexists. reflexivity.
    + rewrite queries_clean in Hrun by assumption.
      injection Hrun as <- <-. eexists; reflexivity.
  - destruct (reloadNeeded b) eqn:Hflag.
    + destruct (snd (loadIPAddresses ParseAddr fs b)) as [err|] eqn:L.
      * destruct (queries_failing fs t ip n b Hflag) as (b' & Hr & Hc & _);
          [congruence|].
        rewrite Hr in Hrun. injection Hrun as <- <-. simpl. lia.
      * destruct n as [|n]; [injection Hrun as <- <-; simpl; lia|].
        simpl repeat in Hrun.
        rewrite run_query_cons, (IsMatched_success fs b ip Hflag L) in Hrun.
        cbn [fst snd] in Hrun.
        rewrite queries_clean in Hrun by reflexivity.
        injection Hrun as <- <-. simpl.
        unfold logger_Debug. rewrite reloads_log. simpl.
        destruct (load_counts fs b) as (Hc & _).
        unfold reloads in *. simpl in *. lia.
    + rewrite queries_clean in Hrun by assumption.
      injection Hrun as <- <-. simpl. lia.
  - intros L. destruct (reloadNeeded b) eqn:Hflag.
    + destruct n as [|n]; [injection Hrun as <- <-; simpl; split; lia|].
      simpl repeat in Hrun.
      rewrite run_query_cons, (IsMatched_success fs b ip Hflag L) in Hrun.
      cbn [fst snd] in Hrun.
      rewrite queries_clean in Hrun by reflexivity.
      injection Hrun as <- <-. simpl. split; [|reflexivity].
      unfold logger_Debug. rewrite reloads_log, load_failures_log. simpl.
      destruct (load_counts fs b) as (Hc & Hf).
      unfold reloads, load_failures in *. simpl in *. lia.
    + rewrite queries_clean in Hrun by assumption.
      injection Hrun as <- <-. simpl. split; [lia|]. intros _. assumption.
Qed.

End Properties.

(** ** The claims on concrete files *)

Module Witness.
Import Sample.

(** The scenario of the specification: the file holds 10.0.0.1 and
    10.0.0.2; after 10.0.0.3 is appended and the watcher has seen the
    write, the next query finds it. *)
Example end_to_end :
  snd (run Parse (mkSystem with_two_ips fresh Watching)
         [Query ip1; Query ip3;
          FsChange (fs_of [("/etc/caddy"%string, Directory);
                           (banfile, Regular (two_ips ++ "10.0.0.3"))]);
          Query ip3; Receive written; Query ip3])
  = [true; false; false; true].
Proof. reflexivity. Qed.

Example commented_file_loads :
  loadIPAddresses Parse with_commented stale
  = (set_ipAddresses stale [ip1; loopback6; ip2], None).
Proof. reflexivity. Qed.

Lemma C1_witness :
  IsMatched Parse with_two_ips fresh ip1 = (loaded_two_ips, true)
  /\ In ip1 (ipAddresses loaded_two_ips).
Proof.
  assert (E : IsMatched Parse with_two_ips fresh ip1 = (loaded_two_ips, true))
    by reflexivity.
  split; [exact E|].
  destruct (C1_IsMatched_iff_snapshot_contains
              Parse with_two_ips fresh ip1 loaded_two_ips true E)
    as (_ & H & _).
  apply H. reflexivity.
Defined.

Lemma C2_witness :
  reloadNeeded stale = true
  /\ snd (loadIPAddresses Parse with_unreadable stale) = Some read_failure
  /\ reloadNeeded (fst (IsMatched Parse with_unreadable stale ip3)) = true
  /\ ipAddresses (fst (IsMatched Parse with_unreadable stale ip3)) = [ip3].
Proof.
  assert (F : reloadNeeded stale = true) by reflexivity.
  assert (L : snd (loadIPAddresses Parse with_unreadable stale)
              = Some read_failure) by reflexivity.
  split; [exact F|]. split; [exact L|].
  destruct (C2_failed_reload_keeps_flag_and_snapshot
              Parse with_unreadable stale ip3 read_failure
              (fst (IsMatched Parse with_unreadable stale ip3))
              (snd (IsMatched Parse with_unreadable stale ip3))
              F L eq_refl)
    as (H1 & H2 & _).
  split; [exact H1 | exact H2].
Defined.


(** C4 as stated fails: the file below is read without any I/O error and
    its lines hold one address, yet loading it returns an error and
    leaves the old snapshot, because its second line does not fit the
    scanner's buffer. *)
Lemma C4_counterexample :
  file_exists with_long_comment (ipFile stale)
  /\ Open with_long_comment (ipFile stale)
     = Ok (Bufio.mkReader long_comment None)
  /\ parsed_addresses Parse (Bufio.lines long_comment) = [ip1]
  /\ loadIPAddresses Parse with_long_comment stale
     = (stale, Some too_long_failure)
  /\ ~ loads_parsed_lines Parse with_long_comment stale
        (Bufio.mkReader long_comment None).
Proof.
  assert (L : loadIPAddresses Parse with_long_comment stale
              = (stale, Some too_long_failure))
    by (vm_compute; reflexivity).
  split; [exists (mkFileInfo false); split; reflexivity|].
  split; [reflexivity|].
  split; [vm_compute; reflexivity|].
  split; [exact L|].
  unfold loads_parsed_lines. rewrite L. intros H. discriminate H.
Qed.

Lemma C4_witness :
  file_exists with_commented (ipFile stale)
  /\ Forall Bufio.short_line (Bufio.raw_lines commented)
  /\ loadIPAddresses Parse with_commented stale
     = (set_ipAddresses stale [ip1; loopback6; ip2], None).
Proof.
  assert (X : file_exists with_commented (ipFile stale))
    by (exists (mkFileInfo false); split; reflexivity).
  assert (S : Forall Bufio.short_line (Bufio.raw_lines commented))
    by (repeat constructor).
  split; [exact X|]. split; [exact S|].
  exact (proj1 (C4_load_keeps_parsed_lines_in_order
                  Parse with_commented stale (Bufio.mkReader commented None)
                  X eq_refl eq_refl S)).
Defined.


Lemma C6_witness :
  (Forall (other_path_or_delete (ipFile loaded_two_ips))
     [other_written; deleted]
   /\ reloadNeeded
        (fst (monitor Dir with_two_ips loaded_two_ips None no_error
                [other_written; deleted]))
      = reloadNeeded loaded_two_ips)
  /\ (reloadNeeded
        (fst (monitor Dir with_two_ips loaded_two_ips None no_error
                [other_written; deleted; written; CtxDone]))
      = true
      /\ Exists (create_or_write_at (ipFile loaded_two_ips))
           [other_written; deleted; written; CtxDone]).
Proof.
  assert (F : Forall (other_path_or_delete (ipFile loaded_two_ips))
                [other_written; deleted]).
  { constructor; [left; cbv; discriminate|].
    constructor; [right; reflexivity | constructor]. }
  split.
  - split; [exact F|].
    destruct (C6_watcher_sets_flag_only_on_create_or_write
                Dir with_two_ips loaded_two_ips None no_error
                [other_written; deleted]
                (fst (monitor Dir with_two_ips loaded_two_ips None no_error
                        [other_written; deleted]))
                (snd (monitor Dir with_two_ips loaded_two_ips None no_error
                        [other_written; deleted]))
                eq_refl)
      as (_ & H & _).
    exact (H F).
  - assert (T : reloadNeeded
                  (fst (monitor Dir with_two_ips loaded_two_ips None no_error
                          [other_written; deleted; written; CtxDone]))
                = true) by reflexivity.
    split; [exact T|].
    destruct (C6_watcher_sets_flag_only_on_create_or_write
                Dir with_two_ips loaded_two_ips None no_error
                [other_written; deleted; written; CtxDone]
                (fst (monitor Dir with_two_ips loaded_two_ips None no_error
                        [other_written; deleted; written; CtxDone]))
                (snd (monitor Dir with_two_ips loaded_two_ips None no_error
                        [other_written; deleted; written; CtxDone]))
                eq_refl)
      as (H & _).
    destruct (H T) as [H0|H0]; [discriminate H0 | exact H0].
Defined.

Lemma C7_witness :
  dir_exists dir_only (Dir banfile)
  /\ file_absent dir_only banfile
  /\ exists b,
       NewIPList Dir dir_only banfile [] = Ok b
       /\ Forall (eq false)
            (snd (run Parse (mkSystem dir_only b Watching)
                    [Query ip1; Receive created; Query ip2;
                     FsChange dir_only; Query ip1])).
Proof.
  assert (D : dir_exists dir_only (Dir banfile))
    by (exists (mkFileInfo true); split; reflexivity).
  assert (A : file_absent dir_only banfile)
    by (exists ENOENT; reflexivity).
  split; [exact D|]. split; [exact A|].
  destruct (C7_fresh_list_without_file_matches_nothing
              Dir Parse dir_only banfile []
              [Query ip1; Receive created; Query ip2;
               FsChange dir_only; Query ip1] D A)
    as (b & Hnew & _ & Hrun).
  - repeat constructor. exact A.
  - exists b. split; [exact Hnew | exact (Hrun Watching)].
Defined.

Lemma C8_witness :
  run Parse (mkSystem with_two_ips fresh Watching) (repeat (Query ip1) 3)
  = (mkSystem with_two_ips loaded_two_ips Watching, [true; true; true])
  /\ (reloads loaded_two_ips <= reloads fresh + 1)%nat.
Proof.
  assert (E : run Parse (mkSystem with_two_ips fresh Watching)
                (repeat (Query ip1) 3)
              = (mkSystem with_two_ips loaded_two_ips Watching,
                 [true; true; true])) by reflexivity.
  split; [exact E|].
  destruct (C8_repeated_queries_agree_and_reload_once
              Parse with_two_ips fresh Watching ip1 3
              (mkSystem with_two_ips loaded_two_ips Watching)
              [true; true; true] E)
    as (_ & H & _).
  exact H.
Defined.


End Witness.

(** * Further properties of the list *)

Section MoreProperties.

Variable filepath_Dir : string -> string.
Variable ParseAddr : string -> option Addr.

(** ** Loading *)

(** A line that does not fit the buffer stops the scan with
    [ErrTooLong]. *)
Lemma scan_too_long (s : string) : forall (cur : list ascii) (e : option error),
  Forall BufioFacts.notLF cur ->
  Exists (fun l => ~ Bufio.short_line l)
    (Bufio.raw_lines (string_of_list_ascii (rev cur) ++ s)) ->
  snd (Bufio.scan s cur (Z.of_nat (List.length cur)) e) = Some ErrTooLong.
Proof.
  induction s as [|c rest IH]; intros cur e Hcur Hlong;
    assert (Hrev : Forall BufioFacts.notLF (rev cur)) by (now apply Forall_rev);
    rewrite BufioFacts.scan_eq;
    destruct (Z.leb_spec Bufio.MaxScanTokenSize (Z.of_nat (List.length cur)))
      as [Hbig|Hfit]; try reflexivity.
  - exfalso.
    assert (A : (string_of_list_ascii (rev cur) ++ "")%string
                = string_of_list_ascii (rev cur))
      by (generalize (string_of_list_ascii (rev cur)); intros t;
          induction t; simpl; congruence).
    rewrite A, BufioFacts.raw_lines_no_LF in Hlong by assumption.
    destruct (rev cur) as [|r rs] eqn:Er; [now inversion Hlong|].
    rewrite <- Er in Hlong.
    apply Exists_cons in Hlong. destruct Hlong as [H|H]; [|now inversion H].
    apply H. unfold Bufio.short_line.
    now rewrite BufioFacts.length_sola, length_rev.
  - destruct (c =? Bufio.LF)%char eqn:Ec.
    + apply Ascii.eqb_eq in Ec; subst c.
      rewrite BufioFacts.raw_lines_app_LF in Hlong by assumption.
      apply Exists_cons in Hlong. destruct Hlong as [H|H].
      * exfalso. apply H. unfold Bufio.short_line.
        now rewrite BufioFacts.length_sola, length_rev.
      * specialize (IH [] e (Forall_nil _) H). simpl in IH.
        destruct (Bufio.scan rest [] 0 e) as [toks e']. exact IH.
    + assert (A : (string_of_list_ascii (rev cur) ++ String c rest)%string
                  = (string_of_list_ascii (rev (c :: cur)) ++ rest)%string).
      { simpl rev. rewrite BufioFacts.sola_app, BufioFacts.append_assoc.
        reflexivity. }
      rewrite A in Hlong.
      replace (Z.of_nat (List.length cur) + 1)
        with (Z.of_nat (List.length (c :: cur))) by (simpl List.length; lia).
      apply IH; [constructor; assumption | assumption].
Qed.

Lemma short_line_dec (l : string) :
  {Bufio.short_line l} + {~ Bufio.short_line l}.
Proof.
  unfold Bufio.short_line.
  destruct (Z_lt_dec (Z.of_nat (String.length l)) Bufio.MaxScanTokenSize);
    [now left | now right].
Qed.

(** The scan of a file ends without error exactly when reading it does
    and every line fits the buffer. *)
Lemma ScanAll_ok_iff (f : Bufio.Reader) :
  snd (Bufio.ScanAll f) = None <->
  Bufio.read_err f = None
  /\ Forall Bufio.short_line (Bufio.raw_lines (Bufio.data f)).
Proof.
  split.
  - intros H. split.
    + destruct (Bufio.read_err f) as [e|] eqn:R; [|reflexivity].
      unfold Bufio.ScanAll in H. rewrite R in H.
      now apply BufioFacts.scan_read_err in H.
    + destruct (Forall_Exists_dec _ short_line_dec
                  (Bufio.raw_lines (Bufio.data f))) as [Hs|Hl];
        [assumption|].
      pose proof (scan_too_long (Bufio.data f) [] (Bufio.read_err f)
                    (Forall_nil _) Hl) as T.
      unfold Bufio.ScanAll in H. simpl in T. congruence.
  - intros (R & Hs). rewrite BufioFacts.ScanAll_lines by assumption.
    exact R.
Qed.

Lemma load_opened (fs : FS) (b : IPList) (f : Bufio.Reader) :
  file_exists fs (ipFile b) -> Open fs (ipFile b) = Ok f ->
  (snd (loadIPAddresses ParseAddr fs b) = None <->
   snd (Bufio.ScanAll f) = None).
Proof.
  intros X O. apply ipFileExists_true_iff in X.
  unfold loadIPAddresses. rewrite X, O. simpl.
  destruct (Bufio.ScanAll f) as [toks [e|]]; simpl; split;
    congruence || reflexivity.
Qed.

(** X1.  Loading a file that exists and opens succeeds exactly when reading it
    ends without error and each of its lines is shorter than 65536 bytes;
    in every other case the error is returned and the list is left as it
    was. *)
Theorem load_of_opened_file_succeeds_iff
        (fs : FS) (b : IPList) (f : Bufio.Reader) :
  file_exists fs (ipFile b) ->
  Open fs (ipFile b) = Ok f ->
  (snd (loadIPAddresses ParseAddr fs b) = None <->
     Bufio.read_err f = None
     /\ Forall Bufio.short_line (Bufio.raw_lines (Bufio.data f)))
  /\ (snd (loadIPAddresses ParseAddr fs b) <> None ->
      fst (loadIPAddresses ParseAddr fs b) = b).
Proof.
  intros X O. split.
  - rewrite (load_opened fs b f X O). apply ScanAll_ok_iff.
  - intros H.
    destruct (snd (loadIPAddresses ParseAddr fs b)) as [err|] eqn:L;
      [|congruence].
    now apply (load_failure_unchanged ParseAddr fs b err).
Qed.

(** X2.  The snapshot a successful load leaves depends on the list only
    through its path: nothing of the earlier snapshot, of the log or of
    the flag enters it. *)
Theorem load_replaces_snapshot_wholesale (fs : FS) (b1 b2 : IPList) :
  ipFile b1 = ipFile b2 ->
  snd (loadIPAddresses ParseAddr fs b1) = None ->
  snd (loadIPAddresses ParseAddr fs b2) = None
  /\ ipAddresses (fst (loadIPAddresses ParseAddr fs b1))
     = ipAddresses (fst (loadIPAddresses ParseAddr fs b2)).
Proof.
  intros E. unfold loadIPAddresses, ipFileExists. rewrite E.
  destruct (Lstat fs (ipFile b2)) as [st|e]; simpl; [|auto].
  destruct (IsDir st); simpl; [auto|].
  destruct (Open fs (ipFile b2)) as [f|e]; simpl; [|discriminate].
  destruct (Bufio.ScanAll f) as [toks [e|]]; simpl; [discriminate | auto].
Qed.

(** ** Queries *)

Lemma rangeCompare_parsed_listed (text : string) (ip : Addr) :
  rangeCompare (parsed_addresses ParseAddr (Bufio.lines text)) ip = true
  <-> listed ParseAddr text ip.
Proof.
  rewrite rangeCompare_true_In. apply In_parsed_addresses.
Qed.

(** What a query does to a list that is due for a reload when the file
    can be read. *)
Lemma dirty_query_of_readable (fs : FS) (b : IPList) (f : Bufio.Reader)
      (ip : Addr) :
  reloadNeeded b = true ->
  readable fs (ipFile b) f ->
  IsMatched ParseAddr fs b ip
  = (logger_Debug
       (set_reloadNeeded
          (set_ipAddresses b
             (parsed_addresses ParseAddr (Bufio.lines (Bufio.data f))))
          false)
       "reloaded IP addresses",
     rangeCompare
       (parsed_addresses ParseAddr (Bufio.lines (Bufio.data f))) ip).
Proof.
  intros Hflag (X & O & R & Hs).
  assert (L : loadIPAddresses ParseAddr fs b
              = (set_ipAddresses b
                   (parsed_addresses ParseAddr (Bufio.lines (Bufio.data f))),
                 None)).
  { apply (load_scanned ParseAddr fs b f); try assumption.
    - now apply ipFileExists_true_iff.
    - rewrite BufioFacts.ScanAll_lines by assumption. now rewrite R. }
  rewrite (IsMatched_success ParseAddr fs b ip Hflag); rewrite L; reflexivity.
Qed.

(** X3.  A query on a list that is due for a reload answers from the file as
    it is now: it returns true exactly for the addresses that some line of
    the file parses to, those are the addresses it leaves in the snapshot,
    and it clears the flag. *)
Theorem dirty_query_answers_from_file
        (fs : FS) (b : IPList) (f : Bufio.Reader) (ip : Addr) :
  reloadNeeded b = true ->
  readable fs (ipFile b) f ->
  (snd (IsMatched ParseAddr fs b ip) = true <->
     listed ParseAddr (Bufio.data f) ip)
  /\ (forall ip',
        In ip' (ipAddresses (fst (IsMatched ParseAddr fs b ip))) <->
        listed ParseAddr (Bufio.data f) ip')
  /\ reloadNeeded (fst (IsMatched ParseAddr fs b ip)) = false.
Proof.
  intros Hflag Hr. rewrite (dirty_query_of_readable fs b f ip Hflag Hr).
  simpl. split; [apply rangeCompare_parsed_listed|].
  split; [|reflexivity].
  intros ip'. apply In_parsed_addresses.
Qed.

Lemma NewIPList_ok (fs : FS) (p : string) (lg : list LogEntry) (b : IPList) :
  NewIPList filepath_Dir fs p lg = Ok b ->
  b = {| ipFile := p; ipAddresses := []; logger := lg; reloadNeeded := true |}.
Proof.
  unfold NewIPList.
  destruct (ipFileDirectoryExists filepath_Dir fs _); simpl; congruence.
Qed.

(** X4.  The first query on a list that [NewIPList] returned reads the file as
    it is at the time of the query, however the file system looked when
    the list was built: the answer is true exactly for the addresses
    listed in the file. *)
Theorem first_query_after_construction_reads_file
        (fs0 fs : FS) (p : string) (lg : list LogEntry) (b : IPList)
        (f : Bufio.Reader) (ip : Addr) :
  NewIPList filepath_Dir fs0 p lg = Ok b ->
  readable fs p f ->
  (snd (IsMatched ParseAddr fs b ip) = true <->
     listed ParseAddr (Bufio.data f) ip).
Proof.
  intros Hnew Hr. apply NewIPList_ok in Hnew. subst b.
  rewrite (dirty_query_of_readable fs
             {| ipFile := p; ipAddresses := []; logger := lg;
                reloadNeeded := true |} f ip eq_refl Hr).
  simpl. apply rangeCompare_parsed_listed.
Qed.

Lemma run_receive_cons (fs : FS) (b : IPList) (c : SelectCase)
      (rest : list Action) :
  run ParseAddr (mkSystem fs b Watching) (Receive c :: rest)
  = run ParseAddr
      (mkSystem fs (fst (monitor_step b c)) (snd (monitor_step b c))) rest.
Proof.
  rewrite run_cons. unfold act. cbn [sys_fs sys_list sys_task].
  destruct (monitor_step b c) as [b1 t1]. cbn [fst snd app].
  now destruct (run ParseAddr (mkSystem fs b1 t1) rest).
Qed.

Lemma run_fschange_cons (fs fs' : FS) (b : IPList) (t : TaskState)
      (rest : list Action) :
  run ParseAddr (mkSystem fs b t) (FsChange fs' :: rest)
  = run ParseAddr (mkSystem fs' b t) rest.
Proof.
  rewrite run_cons. unfold act. cbn [sys_fs sys_list sys_task fst snd app].
  now destruct (run ParseAddr (mkSystem fs' b t) rest).
Qed.

(** *** Runs without a notification *)

Lemma act_quiet (s : System) (a : Action) :
  reloadNeeded (sys_list s) = false ->
  quiet (ipFile (sys_list s)) a ->
  ipFile (sys_list (fst (act ParseAddr s a))) = ipFile (sys_list s)
  /\ ipAddresses (sys_list (fst (act ParseAddr s a)))
     = ipAddresses (sys_list s)
  /\ reloadNeeded (sys_list (fst (act ParseAddr s a))) = false
  /\ snd (act ParseAddr s a)
     = map (rangeCompare (ipAddresses (sys_list s))) (queried [a]).
Proof.
  destruct s as [fs b t]. simpl. intros Hflag Hq.
  destruct a as [ip|c|fs']; unfold act; cbn [sys_fs sys_list sys_task].
  - rewrite (IsMatched_clean ParseAddr fs b ip Hflag). simpl. auto.
  - destruct t; simpl; [|auto].
    pose proof (monitor_step_ipFile b c) as Hf.
    pose proof (monitor_step_ipAddresses b c) as Hi.
    pose proof (monitor_step_flag b c) as Hs.
    destruct (monitor_step b c) as [b1 t1]. simpl in *.
    destruct Hs as [Hs|Hs]; [|contradiction].
    repeat split; congruence.
  - auto.
Qed.

Lemma queried_cons (a : Action) (rest : list Action) :
  queried (a :: rest) = queried [a] ++ queried rest.
Proof. destruct a; reflexivity. Qed.

Lemma run_quiet (acts : list Action) : forall s,
  reloadNeeded (sys_list s) = false ->
  Forall (quiet (ipFile (sys_list s))) acts ->
  ipFile (sys_list (fst (run ParseAddr s acts))) = ipFile (sys_list s)
  /\ ipAddresses (sys_list (fst (run ParseAddr s acts)))
     = ipAddresses (sys_list s)
  /\ reloadNeeded (sys_list (fst (run ParseAddr s acts))) = false
  /\ snd (run ParseAddr s acts)
     = map (rangeCompare (ipAddresses (sys_list s))) (queried acts).
Proof.
  induction acts as [|a rest IH]; intros s Hflag Hall.
  - simpl. auto.
  - rewrite run_cons. cbn [fst snd].
    destruct (act_quiet s a Hflag (Forall_inv Hall)) as (Hf & Hi & Hn & Hr).
    destruct (IH (fst (act ParseAddr s a)) Hn) as (Hf' & Hi' & Hn' & Hr').
    + rewrite Hf. exact (Forall_inv_tail Hall).
    + rewrite Hf', Hi', Hr', Hr, Hf, Hi, (queried_cons a rest), map_app.
      auto.
Qed.

(** X5.  As long as the watcher receives no create or write event for the
    list's path, a list that is not due for a reload never reads the file
    again: whatever happens to the file system, and whatever else the
    watcher receives (a plain delete event, events for other paths,
    errors), every query is answered from the snapshot the list had, and
    the snapshot stays the same. *)
Theorem without_notification_queries_use_old_snapshot
        (fs : FS) (b : IPList) (t : TaskState) (acts : list Action) :
  reloadNeeded b = false ->
  Forall (quiet (ipFile b)) acts ->
  snd (run ParseAddr (mkSystem fs b t) acts)
  = map (rangeCompare (ipAddresses b)) (queried acts)
  /\ ipAddresses (sys_list (fst (run ParseAddr (mkSystem fs b t) acts)))
     = ipAddresses b
  /\ reloadNeeded (sys_list (fst (run ParseAddr (mkSystem fs b t) acts)))
     = false.
Proof.
  intros Hflag Hall.
  destruct (run_quiet acts (mkSystem fs b t) Hflag Hall) as (_ & Hi & Hn & Hr).
  auto.
Qed.

(** X6.  Once the running watcher has received a create or write event for the
    list's path, the next query reads the file: it answers true exactly
    for the addresses listed in it. *)
Theorem notification_then_query_reads_file
        (fs : FS) (b : IPList) (c : SelectCase) (f : Bufio.Reader)
        (ip : Addr) :
  create_or_write_at (ipFile b) c ->
  readable fs (ipFile b) f ->
  exists r,
    snd (run ParseAddr (mkSystem fs b Watching) [Receive c; Query ip]) = [r]
    /\ (r = true <-> listed ParseAddr (Bufio.data f) ip).
Proof.
  intros Hc Hr.
  exists (rangeCompare
            (parsed_addresses ParseAddr (Bufio.lines (Bufio.data f))) ip).
  split; [|apply rangeCompare_parsed_listed].
  rewrite run_receive_cons, (monitor_step_sets b c Hc). cbn [fst snd].
  rewrite run_query_cons.
  rewrite (dirty_query_of_readable fs (set_reloadNeeded b true) f ip eq_refl Hr).
  reflexivity.
Qed.

(** X7.  A reload that failed is made up for by the next query without any
    notification: when the file has become readable in the meantime, the
    query after the failed one answers from the file. *)
Theorem failed_reload_is_retried_on_next_query
        (fs1 fs2 : FS) (b : IPList) (t : TaskState) (f : Bufio.Reader)
        (ip1 ip2 : Addr) :
  reloadNeeded b = true ->
  snd (loadIPAddresses ParseAddr fs1 b) <> None ->
  readable fs2 (ipFile b) f ->
  exists r,
    snd (run ParseAddr (mkSystem fs1 b t)
           [Query ip1; FsChange fs2; Query ip2])
    = [rangeCompare (ipAddresses b) ip1; r]
    /\ (r = true <-> listed ParseAddr (Bufio.data f) ip2).
Proof.
  intros Hflag Hfail Hr.
  destruct (snd (loadIPAddresses ParseAddr fs1 b)) as [err|] eqn:L;
    [|congruence].
  exists (rangeCompare
            (parsed_addresses ParseAddr (Bufio.lines (Bufio.data f))) ip2).
  split; [|apply rangeCompare_parsed_listed].
  rewrite run_query_cons, (IsMatched_failure ParseAddr fs1 b ip1 err Hflag L).
  cbn [fst snd]. rewrite run_fschange_cons, run_query_cons.
  rewrite (dirty_query_of_readable fs2
             (logger_Error b "could not load IP addresses" (Some err))
             f ip2 Hflag Hr).
  reflexivity.
Qed.

(** X8.  The answer of a query does not depend on the order of the snapshot
    nor on repetitions in it: two lists that are not due for a reload and
    hold the same addresses answer every query alike. *)
Theorem answer_ignores_order_and_repetition
        (fs1 fs2 : FS) (b1 b2 : IPList) (ip : Addr) :
  reloadNeeded b1 = false ->
  reloadNeeded b2 = false ->
  (forall a, In a (ipAddresses b1) <-> In a (ipAddresses b2)) ->
  snd (IsMatched ParseAddr fs1 b1 ip) = snd (IsMatched ParseAddr fs2 b2 ip).
Proof.
  intros H1 H2 Hsame.
  rewrite (IsMatched_clean ParseAddr fs1 b1 ip H1).
  rewrite (IsMatched_clean ParseAddr fs2 b2 ip H2). simpl.
  destruct (rangeCompare (ipAddresses b2) ip) eqn:E2.
  - apply rangeCompare_true_In. apply Hsame. now apply rangeCompare_true_In.
  - destruct (rangeCompare (ipAddresses b1) ip) eqn:E1; [|reflexivity].
    apply rangeCompare_true_In in E1. apply Hsame in E1.
    apply rangeCompare_true_In in E1. congruence.
Qed.

(** ** The watcher *)

Lemma monitor_step_state (b : IPList) (c : SelectCase) :
  snd (monitor_step b c) = if stops c then Stopped else Watching.
Proof.
  destruct c as [|err ok|e ok]; simpl; try reflexivity.
  - now destruct ok.
  - destruct ok; simpl; [|reflexivity].
    now destruct ((ipFile b =? Fsnotify.Name e)%string
                  && (Fsnotify.Has e Fsnotify.Create
                      || Fsnotify.Has e Fsnotify.Write)).
Qed.

Lemma monitor_loop_cons (b : IPList) (c : SelectCase)
      (rest : list SelectCase) :
  monitor_loop b (c :: rest)
  = if stops c then (fst (monitor_step b c), Stopped)
    else monitor_loop (fst (monitor_step b c)) rest.
Proof.
  simpl. pose proof (monitor_step_state b c) as H.
  destruct (monitor_step b c) as [b1 t1]. simpl in *. subst t1.
  now destruct (stops c).
Qed.

(** X9.  The watcher's loop returns exactly when the context is done or one of
    the watcher's channels is closed; errors and events received from an
    open channel never end it. *)
Theorem watcher_returns_iff_done_or_closed
        (b : IPList) (recv : list SelectCase) :
  snd (monitor_loop b recv) = Stopped <->
  Exists (fun c => stops c = true) recv.
Proof.
  revert b. induction recv as [|c rest IH]; intros b.
  - simpl. split; [discriminate | intros H; inversion H].
  - rewrite monitor_loop_cons. destruct (stops c) eqn:E.
    + simpl. split; [intros _; now left | reflexivity].
    + rewrite IH. split.
      * intros H. now right.
      * intros H. apply Exists_cons in H. destruct H as [H|H];
          [congruence | assumption].
Qed.

(** X10.  Once the loop has returned, nothing that arrives later is looked at:
    in particular no later event marks the list for a reload. *)
Theorem returned_watcher_ignores_what_follows
        (b : IPList) (pre rest : list SelectCase) :
  snd (monitor_loop b pre) = Stopped ->
  monitor_loop b (pre ++ rest) = monitor_loop b pre.
Proof.
  revert b. induction pre as [|c pre IH]; intros b.
  - simpl. discriminate.
  - rewrite <- app_comm_cons, !monitor_loop_cons.
    destruct (stops c); [reflexivity | apply IH].
Qed.

Lemma monitor_loop_ipFile (recv : list SelectCase) : forall b,
  ipFile (fst (monitor_loop b recv)) = ipFile b.
Proof.
  induction recv as [|c rest IH]; intros b; [reflexivity|].
  rewrite monitor_loop_cons.
  destruct (stops c); simpl; [|rewrite IH]; apply monitor_step_ipFile.
Qed.

(** X11.  However [monitor] ends, it has not changed the list's path, it has
    not cleared a flag that was set, and the snapshot is the one it
    found. *)
Theorem watcher_keeps_path_snapshot_and_set_flag
        (fs : FS) (b : IPList) (newWatcher : option error)
        (add : string -> option error) (recv : list SelectCase) :
  ipFile (fst (monitor filepath_Dir fs b newWatcher add recv)) = ipFile b
  /\ ipAddresses (fst (monitor filepath_Dir fs b newWatcher add recv))
     = ipAddresses b
  /\ (reloadNeeded b = true ->
      reloadNeeded (fst (monitor filepath_Dir fs b newWatcher add recv))
      = true).
Proof.
  unfold monitor.
  destruct newWatcher as [err|]; [simpl; auto|].
  destruct (ipFileDirectoryExists filepath_Dir fs b); simpl; [|auto].
  destruct (add (filepath_Dir (ipFile b))) as [err|]; [simpl; auto|].
  split; [apply monitor_loop_ipFile|].
  destruct (monitor_loop_flag recv b
              (fst (monitor_loop b recv)) (snd (monitor_loop b recv)))
    as (Ha & Hk & _).
  - now destruct (monitor_loop b recv).
  - auto.
Qed.

(** X12.  A list that [NewIPList] returned passes the watcher's own check of the
    directory on the same file system, so with a working watcher the loop
    is entered; if the directory has gone by the time the watcher starts,
    the watcher logs that and returns at once, whatever it would have
    received. *)
Theorem constructed_list_can_be_watched
        (fs : FS) (p : string) (lg : list LogEntry) (b : IPList) :
  NewIPList filepath_Dir fs p lg = Ok b ->
  (forall add recv,
      add (filepath_Dir p) = None ->
      monitor filepath_Dir fs b None add recv = monitor_loop b recv)
  /\ (forall fs' add recv,
        ~ dir_exists fs' (filepath_Dir p) ->
        monitor filepath_Dir fs' b None add recv
        = (logger_Error b
             "directory containing the IP file to monitor does not exist"
             None,
           Stopped)).
Proof.
  intros Hnew.
  assert (Hd : ipFileDirectoryExists filepath_Dir fs b = true).
  { pose proof (NewIPList_ok fs p lg b Hnew) as Eb.
    unfold NewIPList in Hnew.
    destruct (ipFileDirectoryExists filepath_Dir fs _) eqn:E;
      simpl in Hnew; [|discriminate].
    now subst b. }
  assert (Hp : ipFile b = p)
    by (rewrite (NewIPList_ok fs p lg b Hnew); reflexivity).
  split.
  - intros add recv Hadd. unfold monitor. rewrite Hd, Hp, Hadd. reflexivity.
  - intros fs' add recv Hno. unfold monitor.
    destruct (ipFileDirectoryExists filepath_Dir fs' b) eqn:E; [|reflexivity].
    exfalso. apply Hno. rewrite <- Hp.
    now apply ipFileDirectoryExists_true_iff.
Qed.

(** ** The list over time *)

Lemma run_app (acts1 acts2 : list Action) : forall s,
  run ParseAddr s (acts1 ++ acts2)
  = (fst (run ParseAddr (fst (run ParseAddr s acts1)) acts2),
     snd (run ParseAddr s acts1)
     ++ snd (run ParseAddr (fst (run ParseAddr s acts1)) acts2)).
Proof.
  induction acts1 as [|a rest IH]; intros s.
  - simpl. now destruct (run ParseAddr s acts2).
  - rewrite <- app_comm_cons, !run_cons, IH. cbn [fst snd].
    now rewrite app_assoc.
Qed.

Lemma reloadIfNeeded_logger (fs : FS) (b : IPList) :
  exists more, logger (reloadIfNeeded ParseAddr fs b) = logger b ++ more.
Proof.
  unfold reloadIfNeeded. destruct (reloadNeeded b);
    [|exists []; now rewrite app_nil_r].
  unfold loadIPAddresses.
  destruct (ipFileExists fs b); simpl.
  - destruct (Open fs (ipFile b)) as [f|e]; [|eexists; reflexivity].
    destruct (Bufio.ScanAll f) as [toks [e|]]; eexists; reflexivity.
  - rewrite <- app_assoc. eexists; reflexivity.
Qed.

Lemma monitor_step_logger (b : IPList) (c : SelectCase) :
  exists more, logger (fst (monitor_step b c)) = logger b ++ more.
Proof.
  destruct c as [|err ok|e ok]; simpl.
  - eexists; reflexivity.
  - destruct ok; simpl; [|rewrite <- app_assoc]; eexists; reflexivity.
  - destruct ok; simpl; [|eexists; reflexivity].
    destruct ((ipFile b =? Fsnotify.Name e)%string
              && (Fsnotify.Has e Fsnotify.Create
                  || Fsnotify.Has e Fsnotify.Write));
      exists []; simpl; now rewrite app_nil_r.
Qed.

Lemma act_path_and_log (s : System) (a : Action) :
  ipFile (sys_list (fst (act ParseAddr s a))) = ipFile (sys_list s)
  /\ exists more,
       logger (sys_list (fst (act ParseAddr s a)))
       = logger (sys_list s) ++ more.
Proof.
  destruct s as [fs b t].
  destruct a as [ip|c|fs']; unfold act; cbn [sys_fs sys_list sys_task].
  - unfold IsMatched. cbn [fst sys_list]. split;
      [apply reloadIfNeeded_ipFile | apply reloadIfNeeded_logger].
  - destruct t; cbn [fst sys_list];
      [|split; [reflexivity | exists []; now rewrite app_nil_r]].
    pose proof (monitor_step_ipFile b c) as Hf.
    pose proof (monitor_step_logger b c) as Hl.
    destruct (monitor_step b c) as [b1 t1]. cbn [fst sys_list] in *.
    split; assumption.
  - cbn [fst sys_list]. split; [reflexivity | exists []; now rewrite app_nil_r].
Qed.

(** X13.  Whatever is done with a list (queries, passes of the watcher, changes
    of the file system), its path never changes and its log only grows:
    what was logged stays, in order, at the front. *)
Theorem path_is_fixed_and_log_only_grows (acts : list Action) (s : System) :
  ipFile (sys_list (fst (run ParseAddr s acts))) = ipFile (sys_list s)
  /\ exists more,
       logger (sys_list (fst (run ParseAddr s acts)))
       = logger (sys_list s) ++ more.
Proof.
  revert s. induction acts as [|a rest IH]; intros s.
  - simpl. split; [reflexivity | exists []; now rewrite app_nil_r].
  - rewrite run_cons. cbn [fst].
    destruct (act_path_and_log s a) as (Hf & m1 & Hl).
    destruct (IH (fst (act ParseAddr s a))) as (Hf' & m2 & Hl').
    split; [congruence|].
    exists (m1 ++ m2). now rewrite Hl', Hl, app_assoc.
Qed.

(** *** A burst of events *)

Lemma monitor_step_reloads (b : IPList) (c : SelectCase) :
  reloads (fst (monitor_step b c)) = reloads b.
Proof.
  destruct c as [|err ok|e ok]; simpl.
  - unfold logger_Debug. now rewrite reloads_log, Nat.add_0_r.
  - destruct ok; simpl; unfold logger_Error; rewrite !reloads_log; simpl; lia.
  - destruct ok; simpl.
    + now destruct ((ipFile b =? Fsnotify.Name e)%string
                    && (Fsnotify.Has e Fsnotify.Create
                        || Fsnotify.Has e Fsnotify.Write)).
    + unfold logger_Error. now rewrite reloads_log, Nat.add_0_r.
Qed.

Lemma receive_run (cs : list SelectCase) : forall fs b t,
  exists b1 t1,
    run ParseAddr (mkSystem fs b t) (map Receive cs)
    = (mkSystem fs b1 t1, [])
    /\ reloads b1 = reloads b.
Proof.
  induction cs as [|c rest IH]; intros fs b t.
  - exists b, t. split; reflexivity.
  - cbn [map]. destruct t.
    + rewrite run_receive_cons.
      destruct (IH fs (fst (monitor_step b c)) (snd (monitor_step b c)))
        as (b1 & t1 & Hrun & Hr).
      exists b1, t1. split; [exact Hrun|].
      now rewrite Hr, monitor_step_reloads.
    + destruct (IH fs b Stopped) as (b1 & t1 & Hrun & Hr).
      exists b1, t1. split; [|exact Hr].
      rewrite run_cons. unfold act. cbn [sys_task fst snd app].
      now rewrite Hrun.
Qed.

(** Repeated queries for one address on an unchanged file system: one
    answer throughout, and at most one completed reload. *)
Lemma queries_summary (fs : FS) (b : IPList) (t : TaskState) (ip : Addr)
      (n : nat) :
  exists r b',
    run ParseAddr (mkSystem fs b t) (repeat (Query ip) n)
    = (mkSystem fs b' t, repeat r n)
    /\ (reloads b' <= reloads b + 1)%nat.
Proof.
  destruct (reloadNeeded b) eqn:Hflag.
  - destruct (snd (loadIPAddresses ParseAddr fs b)) as [err|] eqn:L.
    + destruct (queries_failing ParseAddr fs t ip n b Hflag)
        as (b' & Hrun & Hr & _); [congruence|].
      exists (rangeCompare (ipAddresses b) ip), b'.
      split; [exact Hrun | lia].
    + destruct n as [|n].
      * exists false, b. split; [reflexivity | lia].
      * pose proof (IsMatched_success ParseAddr fs b ip Hflag L) as E.
        set (b1 := logger_Debug
                     (set_reloadNeeded
                        (fst (loadIPAddresses ParseAddr fs b)) false)
                     "reloaded IP addresses") in *.
        exists (rangeCompare (ipAddresses b1) ip), b1.
        simpl repeat. rewrite run_query_cons, E. cbn [fst snd].
        rewrite (queries_clean ParseAddr fs t ip b1 n eq_refl).
        split; [reflexivity|].
        unfold b1, logger_Debug. rewrite reloads_log. simpl.
        destruct (load_counts ParseAddr fs b) as (Hc & _).
        unfold reloads in *. simpl in *. lia.
  - exists (rangeCompare (ipAddresses b) ip), b.
    split; [now apply queries_clean | lia].
Qed.

(** X14.  However many events the watcher receives before the next queries,
    they cost at most one reload: after any sequence of events, the
    queries for an address that follow on an unchanged file system reload
    the list at most once and all return the same answer. *)
Theorem burst_of_events_costs_one_reload
        (fs : FS) (b : IPList) (t : TaskState) (cs : list SelectCase)
        (ip : Addr) (n : nat) :
  (reloads (sys_list (fst (run ParseAddr (mkSystem fs b t)
                             (map Receive cs ++ repeat (Query ip) n))))
   <= reloads b + 1)%nat
  /\ exists r,
       snd (run ParseAddr (mkSystem fs b t)
              (map Receive cs ++ repeat (Query ip) n))
       = repeat r n.
Proof.
  rewrite run_app.
  destruct (receive_run cs fs b t) as (b1 & t1 & Hrun & Hr).
  rewrite Hrun. cbn [fst snd app].
  destruct (queries_summary fs b1 t1 ip n) as (r & b' & Hq & Hle).
  rewrite Hq. cbn [fst snd sys_list]. split; [lia | now exists r].
Qed.

(** ** Line endings *)

Lemma plain_notLF (l : list ascii) : plain l -> Forall BufioFacts.notLF l.
Proof. apply Forall_impl. intros c (H & _). exact H. Qed.

Lemma dropCR_plain (l : list ascii) :
  plain l -> Bufio.dropCR (string_of_list_ascii l) = string_of_list_ascii l.
Proof.
  induction 1 as [|c l (_ & Hc) Hl IH]; [reflexivity|].
  destruct l as [|c' l'].
  - simpl. now rewrite Hc.
  - change (String c (Bufio.dropCR (string_of_list_ascii (c' :: l')))
            = String c (string_of_list_ascii (c' :: l'))).
    now rewrite IH.
Qed.

Lemma lines_lf_text (ls : list (list ascii)) :
  Forall plain ls ->
  Bufio.raw_lines (lf_text ls) = map string_of_list_ascii ls
  /\ Bufio.lines (lf_text ls) = map string_of_list_ascii ls.
Proof.
  intros Hp.
  assert (R : Bufio.raw_lines (lf_text ls) = map string_of_list_ascii ls).
  { apply BufioFacts.raw_lines_unlines.
    revert Hp. apply Forall_impl. exact plain_notLF. }
  split; [exact R|]. unfold Bufio.lines. rewrite R, map_map.
  apply map_ext_in. intros l Hin. apply dropCR_plain.
  rewrite Forall_forall in Hp. now apply Hp.
Qed.

Lemma lines_crlf_text (ls : list (list ascii)) :
  Forall plain ls ->
  Bufio.raw_lines (crlf_text ls)
  = map (fun l => string_of_list_ascii (l ++ [Bufio.CR])) ls
  /\ Bufio.lines (crlf_text ls) = map string_of_list_ascii ls.
Proof.
  intros Hp.
  assert (R : Bufio.raw_lines (crlf_text ls)
              = map (fun l => string_of_list_ascii (l ++ [Bufio.CR])) ls).
  { unfold crlf_text.
    rewrite <- (map_map (fun l => l ++ [Bufio.CR]) string_of_list_ascii).
    apply BufioFacts.raw_lines_unlines.
    apply Forall_map. revert Hp. apply Forall_impl. intros l Hl.
    apply Forall_app. split; [now apply plain_notLF|].
    constructor; [reflexivity | constructor]. }
  split; [exact R|]. unfold Bufio.lines. rewrite R, map_map.
  apply map_ext. intros l. rewrite BufioFacts.sola_app. simpl.
  now rewrite BufioFacts.dropCR_snoc, Ascii.eqb_refl.
Qed.

Lemma raw_lines_unterminated (ls : list (list ascii)) (last : list ascii) :
  Forall plain ls -> plain last -> last <> [] ->
  Bufio.raw_lines (lf_text ls ++ string_of_list_ascii last)
  = map string_of_list_ascii (ls ++ [last]).
Proof.
  intros Hp Hlast Hne. induction Hp as [|l ls Hl Hls IH].
  - simpl. apply BufioFacts.raw_lines_nonempty_no_LF;
      [now apply plain_notLF | assumption].
  - unfold lf_text in *. simpl.
    rewrite BufioFacts.append_assoc. simpl.
    rewrite BufioFacts.raw_lines_app_LF by now apply plain_notLF.
    now rewrite IH.
Qed.

Lemma load_of_text (fs : FS) (b : IPList) (text : string)
      (ls : list string) :
  file_exists fs (ipFile b) ->
  Open fs (ipFile b) = Ok (Bufio.mkReader text None) ->
  Forall Bufio.short_line (Bufio.raw_lines text) ->
  Bufio.lines text = ls ->
  loadIPAddresses ParseAddr fs b
  = (set_ipAddresses b (parsed_addresses ParseAddr ls), None).
Proof.
  intros X O Hs <-.
  apply (load_scanned ParseAddr fs b (Bufio.mkReader text None));
    try assumption.
  - now apply ipFileExists_true_iff.
  - now rewrite BufioFacts.ScanAll_lines by assumption.
Qed.

(** X15.  A file whose lines end in carriage return and newline loads the same
    addresses as the same lines ending in a newline alone. *)
Theorem crlf_file_loads_like_lf_file
        (fs1 fs2 : FS) (b : IPList) (ls : list (list ascii)) :
  Forall plain ls ->
  Forall (fun l => Z.of_nat (List.length l) + 1 < Bufio.MaxScanTokenSize) ls ->
  file_exists fs1 (ipFile b) ->
  Open fs1 (ipFile b) = Ok (Bufio.mkReader (lf_text ls) None) ->
  file_exists fs2 (ipFile b) ->
  Open fs2 (ipFile b) = Ok (Bufio.mkReader (crlf_text ls) None) ->
  loadIPAddresses ParseAddr fs1 b
  = (set_ipAddresses b
       (parsed_addresses ParseAddr (map string_of_list_ascii ls)), None)
  /\ loadIPAddresses ParseAddr fs2 b = loadIPAddresses ParseAddr fs1 b.
Proof.
  intros Hp Hlen X1 O1 X2 O2.
  destruct (lines_lf_text ls Hp) as (R1 & L1).
  destruct (lines_crlf_text ls Hp) as (R2 & L2).
  assert (E1 : loadIPAddresses ParseAddr fs1 b
               = (set_ipAddresses b
                    (parsed_addresses ParseAddr (map string_of_list_ascii ls)),
                  None)).
  { apply (load_of_text fs1 b (lf_text ls)); try assumption.
    rewrite R1. apply Forall_map. revert Hlen. apply Forall_impl.
    intros l Hl. unfold Bufio.short_line.
    rewrite BufioFacts.length_sola. lia. }
  split; [exact E1|]. rewrite E1.
  apply (load_of_text fs2 b (crlf_text ls)); try assumption.
  rewrite R2. apply Forall_map. revert Hlen. apply Forall_impl.
  intros l Hl. unfold Bufio.short_line.
  rewrite BufioFacts.length_sola, length_app. simpl List.length. lia.
Qed.

(** X16.  A last line that is not ended by a newline is loaded like any other
    line. *)
Theorem unterminated_last_line_is_loaded
        (fs : FS) (b : IPList) (ls : list (list ascii)) (last : list ascii) :
  Forall plain ls -> plain last -> last <> [] ->
  Forall (fun l => Z.of_nat (List.length l) < Bufio.MaxScanTokenSize)
    (ls ++ [last]) ->
  file_exists fs (ipFile b) ->
  Open fs (ipFile b)
  = Ok (Bufio.mkReader (lf_text ls ++ string_of_list_ascii last) None) ->
  loadIPAddresses ParseAddr fs b
  = (set_ipAddresses b
       (parsed_addresses ParseAddr
          (map string_of_list_ascii (ls ++ [last]))), None).
Proof.
  intros Hp Hlast Hne Hlen X O.
  pose proof (raw_lines_unterminated ls last Hp Hlast Hne) as R.
  apply (load_of_text fs b (lf_text ls ++ string_of_list_ascii last));
    try assumption.
  - rewrite R. apply Forall_map. revert Hlen. apply Forall_impl.
    intros l Hl. unfold Bufio.short_line.
    now rewrite BufioFacts.length_sola.
  - unfold Bufio.lines. rewrite R, map_map.
    apply map_ext_in. intros l Hin. apply dropCR_plain.
    apply in_app_or in Hin. destruct Hin as [Hin|[<-|[]]]; [|assumption].
    rewrite Forall_forall in Hp. now apply Hp.
Qed.

End MoreProperties.

(** ** The further properties on concrete files *)

Module MoreWitness.
Import Sample.

Lemma two_ips_readable (fs : FS) :
  file_exists fs banfile ->
  Open fs banfile = Ok (Bufio.mkReader two_ips None) ->
  readable fs banfile (Bufio.mkReader two_ips None).
Proof.
  intros X O. split; [exact X|]. split; [exact O|]. split; [reflexivity|].
  repeat constructor.
Qed.

Lemma banfile_in_with_two_ips : file_exists with_two_ips banfile.
Proof. exists (mkFileInfo false). split; reflexivity. Qed.

Lemma load_succeeds_iff_witness :
  file_exists with_two_ips (ipFile stale)
  /\ Bufio.read_err (Bufio.mkReader two_ips None) = None
  /\ Forall Bufio.short_line (Bufio.raw_lines two_ips).
Proof.
  split; [exact banfile_in_with_two_ips|].
  exact (proj1 (proj1 (load_of_opened_file_succeeds_iff
                         Parse with_two_ips stale
                         (Bufio.mkReader two_ips None)
                         banfile_in_with_two_ips eq_refl))
           eq_refl).
Defined.

Lemma load_replaces_witness :
  ipFile stale = ipFile fresh
  /\ ipAddresses (fst (loadIPAddresses Parse with_two_ips stale))
     = ipAddresses (fst (loadIPAddresses Parse with_two_ips fresh)).
Proof.
  split; [reflexivity|].
  exact (proj2 (load_replaces_snapshot_wholesale
                  Parse with_two_ips stale fresh eq_refl eq_refl)).
Defined.

Lemma dirty_query_witness :
  reloadNeeded stale = true
  /\ readable with_two_ips (ipFile stale) (Bufio.mkReader two_ips None)
  /\ listed Parse two_ips ip1.
Proof.
  assert (R : readable with_two_ips (ipFile stale)
                (Bufio.mkReader two_ips None))
    by (apply two_ips_readable; [exact banfile_in_with_two_ips | reflexivity]).
  split; [reflexivity|]. split; [exact R|].
  exact (proj1 (proj1 (dirty_query_answers_from_file
                         Parse with_two_ips stale
                         (Bufio.mkReader two_ips None) ip1 eq_refl R))
           eq_refl).
Defined.

Lemma first_query_witness :
  NewIPList Dir dir_only banfile [] = Ok fresh
  /\ snd (IsMatched Parse with_two_ips fresh ip2) = true.
Proof.
  split; [reflexivity|].
  apply (first_query_after_construction_reads_file
           Dir Parse dir_only with_two_ips banfile [] fresh
           (Bufio.mkReader two_ips None) ip2 eq_refl).
  - apply two_ips_readable; [exact banfile_in_with_two_ips | reflexivity].
  - exists "10.0.0.2"%string. split; [right; left; reflexivity | reflexivity].
Defined.

Lemma without_notification_witness :
  Forall (quiet (ipFile settled))
    [Query ip1; FsChange dir_only; Receive deleted; Receive other_written;
     Query ip3; Query ip2]
  /\ snd (run Parse (mkSystem with_two_ips settled Watching)
            [Query ip1; FsChange dir_only; Receive deleted;
             Receive other_written; Query ip3; Query ip2])
     = [true; false; true].
Proof.
  assert (Q : Forall (quiet (ipFile settled))
                [Query ip1; FsChange dir_only; Receive deleted;
                 Receive other_written; Query ip3; Query ip2]).
  { repeat (apply Forall_cons || apply Forall_nil); try exact I.
    - apply not_create_or_write. right. reflexivity.
    - apply not_create_or_write. left. cbv. discriminate. }
  split; [exact Q|].
  exact (proj1 (without_notification_queries_use_old_snapshot
                  Parse with_two_ips settled Watching _ eq_refl Q)).
Defined.

Lemma notification_witness :
  create_or_write_at (ipFile stale) created
  /\ exists r,
       snd (run Parse (mkSystem with_two_ips stale Watching)
              [Receive created; Query ip1]) = [r]
       /\ (r = true <-> listed Parse two_ips ip1).
Proof.
  assert (C : create_or_write_at (ipFile stale) created).
  { exists (Fsnotify.mkEvent banfile Fsnotify.Create).
    split; [reflexivity|]. split; [reflexivity | left; reflexivity]. }
  split; [exact C|].
  apply (notification_then_query_reads_file
           Parse with_two_ips stale created (Bufio.mkReader two_ips None)
           ip1 C).
  apply two_ips_readable; [exact banfile_in_with_two_ips | reflexivity].
Defined.

Lemma retry_witness :
  reloadNeeded stale = true
  /\ snd (loadIPAddresses Parse with_unreadable stale) <> None
  /\ exists r,
       snd (run Parse (mkSystem with_unreadable stale Watching)
              [Query ip3; FsChange with_two_ips; Query ip1])
       = [rangeCompare (ipAddresses stale) ip3; r]
       /\ (r = true <-> listed Parse two_ips ip1).
Proof.
  assert (F : snd (loadIPAddresses Parse with_unreadable stale) <> None)
    by (simpl; discriminate).
  split; [reflexivity|]. split; [exact F|].
  apply (failed_reload_is_retried_on_next_query
           Parse with_unreadable with_two_ips stale Watching
           (Bufio.mkReader two_ips None) ip3 ip1 eq_refl F).
  apply two_ips_readable; [exact banfile_in_with_two_ips | reflexivity].
Defined.

Lemma order_witness :
  (forall a, In a (ipAddresses settled) <-> In a (ipAddresses settled_shuffled))
  /\ snd (IsMatched Parse with_two_ips settled ip2)
     = snd (IsMatched Parse dir_only settled_shuffled ip2).
Proof.
  assert (S : forall a, In a (ipAddresses settled)
                        <-> In a (ipAddresses settled_shuffled)).
  { intros a. simpl. tauto. }
  split; [exact S|].
  exact (answer_ignores_order_and_repetition
           Parse with_two_ips dir_only settled settled_shuffled ip2
           eq_refl eq_refl S).
Defined.

Lemma returned_watcher_witness :
  snd (monitor_loop settled [other_written; CtxDone]) = Stopped
  /\ monitor_loop settled ([other_written; CtxDone] ++ [written])
     = monitor_loop settled [other_written; CtxDone].
Proof.
  split; [reflexivity|].
  exact (returned_watcher_ignores_what_follows
           settled [other_written; CtxDone] [written] eq_refl).
Defined.

Lemma watcher_keeps_witness :
  reloadNeeded stale = true
  /\ reloadNeeded
       (fst (monitor Dir with_two_ips stale None no_error
               [deleted; other_written; WatcherError (Some EIO) true;
                CtxDone]))
     = true.
Proof.
  split; [reflexivity|].
  exact (proj2 (proj2 (watcher_keeps_path_snapshot_and_set_flag
                         Dir with_two_ips stale None no_error
                         [deleted; other_written;
                          WatcherError (Some EIO) true; CtxDone]))
           eq_refl).
Defined.

Lemma constructed_list_witness :
  NewIPList Dir dir_only banfile [] = Ok fresh
  /\ monitor Dir dir_only fresh None no_error [written]
     = monitor_loop fresh [written]
  /\ ~ dir_exists empty_fs (Dir banfile)
  /\ snd (monitor Dir empty_fs fresh None no_error [written]) = Stopped.
Proof.
  assert (N : NewIPList Dir dir_only banfile [] = Ok fresh) by reflexivity.
  assert (D : ~ dir_exists empty_fs (Dir banfile))
    by (intros (st & H & _); discriminate H).
  destruct (constructed_list_can_be_watched Dir dir_only banfile [] fresh N)
    as (H1 & H2).
  split; [exact N|]. split; [exact (H1 no_error [written] eq_refl)|].
  split; [exact D|].
  now rewrite (H2 empty_fs no_error [written] D).
Defined.

Lemma three_lines_plain : Forall plain three_lines.
Proof. repeat (constructor; try reflexivity). Qed.

Lemma crlf_witness :
  Forall plain three_lines
  /\ loadIPAddresses Parse with_crlf stale
     = loadIPAddresses Parse with_lf stale.
Proof.
  split; [exact three_lines_plain|].
  refine (proj2 (crlf_file_loads_like_lf_file
                   Parse with_lf with_crlf stale three_lines
                   three_lines_plain _ _ eq_refl _ eq_refl)).
  - repeat (constructor; try reflexivity).
  - exists (mkFileInfo false). split; reflexivity.
  - exists (mkFileInfo false). split; reflexivity.
Defined.

Lemma open_line_witness :
  plain open_line
  /\ loadIPAddresses Parse with_open_line stale
     = (set_ipAddresses stale [ip1; ip2; ip3], None).
Proof.
  assert (P : plain open_line) by (repeat (constructor; try reflexivity)).
  split; [exact P|].
  refine (unterminated_last_line_is_loaded
            Parse with_open_line stale three_lines open_line
            three_lines_plain P _ _ _ eq_refl).
  - discriminate.
  - repeat (constructor; try reflexivity).
  - exists (mkFileInfo false). split; reflexivity.
Defined.

End MoreWitness.
